(** * The caching HTTP forwarding proxy (proxy_server/HTTP_ProxyServer.py)

    A shallow embedding of [sanitize_filename] and [handle_client] together
    with the pieces of the Python runtime they call: text primitives on
    [str] and [bytes], the client and origin sockets, the resolver and the
    cache directory.  Everything outside the process (what the sockets
    deliver, what the resolver answers, whether the disk accepts a write) is
    an explicit environment; every call that touches it is recorded in a
    trace, so statements about "no origin contact" or "no cache file" are
    statements about that trace and about the cache directory.

    The handler runs in a small monad of state, early [return] and
    exceptions.  Writes to the client socket are taken to succeed; logging
    ([print]) is left out.  Sessions are run one at a time; of [main] the
    accept loop is modelled on its own, as the calls on the listening
    socket and the threads started.

    Limits of the model.  A socket delivers finitely many arrivals and is
    then closed by its peer, so every [recv] returns: a peer that stays
    silent, on which the code (it sets no timeout) waits for ever, has no
    counterpart here, and statements about a whole session are about
    sessions in which the handler returns.  [os.makedirs] is taken to
    succeed and the cache directory is a map of names given from outside:
    that the names [''], ['.'] and ['..'] always exist in a directory is a
    property of the maps one starts from, not of [makedirs].  The [CPython]
    instance of the runtime covers ASCII case mapping and authorities
    without brackets; the general statements quantify over the runtime. *)

From Stdlib Require Import NArith List Lia.
From Stdlib Require Import Strings.String Strings.Byte.
From stdpp Require Import base option list gmap.

Local Open Scope N_scope.

(** ** Text: [bytes] as received from a socket, [str] as code points *)

Abbreviation bytes := (list byte).
Abbreviation str := (list N).

Module Text.

(** An ASCII literal as a Python [str] and as a Python [bytes]. *)
Definition lit (s : string) : str := map Byte.to_N (list_byte_of_string s).
Definition blit (s : string) : bytes := list_byte_of_string s.

Definition CR : N := 13.
Definition LF : N := 10.
Definition crlf : str := [CR; LF].
Definition bcrlf : bytes := [x0d; x0a].

Definition between (lo hi c : N) : bool := (lo <=? c) && (c <=? hi).

(** [bytes.decode()], i.e. strict UTF-8: shortest forms only, no
    surrogates, nothing above U+10FFFF, no truncated sequence.  [None] is
    [UnicodeDecodeError]. *)
Definition is_cont (b : N) : bool := between 0x80 0xBF b.

Definition second_of_three (b0 b1 : N) : bool :=
  if b0 =? 0xE0 then between 0xA0 0xBF b1
  else if b0 =? 0xED then between 0x80 0x9F b1
  else is_cont b1.

Definition second_of_four (b0 b1 : N) : bool :=
  if b0 =? 0xF0 then between 0x90 0xBF b1
  else if b0 =? 0xF4 then between 0x80 0x8F b1
  else is_cont b1.

Fixpoint utf8_decode (bs : list N) : option str :=
  match bs with
  | [] => Some []
  | b0 :: r0 =>
    if b0 <? 0x80 then cons b0 <$> utf8_decode r0
    else if between 0xC2 0xDF b0 then
      match r0 with
      | b1 :: r1 =>
        if is_cont b1
        then cons ((b0 - 0xC0) * 64 + (b1 - 0x80)) <$> utf8_decode r1
        else None
      | _ => None
      end
    else if between 0xE0 0xEF b0 then
      match r0 with
      | b1 :: b2 :: r2 =>
        if second_of_three b0 b1 && is_cont b2
        then cons ((b0 - 0xE0) * 4096 + (b1 - 0x80) * 64 + (b2 - 0x80))
               <$> utf8_decode r2
        else None
      | _ => None
      end
    else if between 0xF0 0xF4 b0 then
      match r0 with
      | b1 :: b2 :: b3 :: r3 =>
        if second_of_four b0 b1 && is_cont b2 && is_cont b3
        then cons ((b0 - 0xF0) * 262144 + (b1 - 0x80) * 4096
                   + (b2 - 0x80) * 64 + (b3 - 0x80))
               <$> utf8_decode r3
        else None
      | _ => None
      end
    else None
  end.

Definition decode (data : bytes) : option str :=
  utf8_decode (map Byte.to_N data).

(** [str.encode()]: [None] is [UnicodeEncodeError] (a lone surrogate; code
    points above U+10FFFF are not Python strings at all). *)
Definition byte_of (n : N) : byte := default x00 (Byte.of_N n).

Definition encode_char (c : N) : option bytes :=
  if c <? 0x80 then Some [byte_of c]
  else if c <? 0x800 then
    Some [byte_of (0xC0 + c / 64); byte_of (0x80 + c mod 64)]
  else if c <? 0x10000 then
    if between 0xD800 0xDFFF c then None
    else Some [byte_of (0xE0 + c / 4096); byte_of (0x80 + (c / 64) mod 64);
               byte_of (0x80 + c mod 64)]
  else if c <? 0x110000 then
    Some [byte_of (0xF0 + c / 262144); byte_of (0x80 + (c / 4096) mod 64);
          byte_of (0x80 + (c / 64) mod 64); byte_of (0x80 + c mod 64)]
  else None.

Fixpoint encode (s : str) : option bytes :=
  match s with
  | [] => Some []
  | c :: r =>
    match encode_char c, encode r with
    | Some b, Some br => Some (b ++ br)
    | _, _ => None
    end
  end.

(** [s.startswith(p)], on [str] and on [bytes]. *)
Fixpoint startswith (p s : str) : bool :=
  match p, s with
  | [], _ => true
  | a :: p', b :: s' => (a =? b) && startswith p' s'
  | _ :: _, [] => false
  end.

Fixpoint bstartswith (p s : bytes) : bool :=
  match p, s with
  | [], _ => true
  | a :: p', b :: s' => Byte.eqb a b && bstartswith p' s'
  | _ :: _, [] => false
  end.

(** [s.find(sub)]: index of the first occurrence, [None] for -1. *)
Fixpoint find (sub s : str) : option nat :=
  if startswith sub s then Some 0%nat
  else match s with
       | [] => None
       | _ :: r => S <$> find sub r
       end.

(** [sub in s]. *)
Definition contains (sub s : str) : bool :=
  match find sub s with Some _ => true | None => false end.

(** [s.replace(old, new)] for one-character [old] and [new]. *)
Definition replace (old new : N) (s : str) : str :=
  map (fun c => if c =? old then new else c) s.

(** [s.split("\r\n")]: never empty; scanning left to right. *)
Definition push (c : N) (parts : list str) : list str :=
  match parts with
  | [] => [[c]]
  | p :: ps => (c :: p) :: ps
  end.

Fixpoint split_crlf (s : str) : list str :=
  match s with
  | [] => [[]]
  | c :: r =>
    match r with
    | d :: r' =>
      if (c =? CR) && (d =? LF) then [] :: split_crlf r'
      else push c (split_crlf r)
    | [] => push c (split_crlf r)
    end
  end.

(** [str.isspace] on one code point, the separators of [s.split()]. *)
Definition isspace (c : N) : bool :=
  between 0x09 0x0D c || between 0x1C 0x20 c
  || (c =? 0x85) || (c =? 0xA0) || (c =? 0x1680)
  || between 0x2000 0x200A c || (c =? 0x2028) || (c =? 0x2029)
  || (c =? 0x202F) || (c =? 0x205F) || (c =? 0x3000).

(** [s.split()]: maximal runs of non-space characters. [word] is the run
    being read, most recent character first. *)
Fixpoint split_from (word : str) (s : str) : list str :=
  match s with
  | [] => match word with [] => [] | _ => [rev word] end
  | c :: r =>
    if isspace c
    then match word with
         | [] => split_from [] r
         | _ => rev word :: split_from [] r
         end
    else split_from (c :: word) r
  end.

Definition split (s : str) : list str := split_from [] s.

(** Truth value of a sequence: [not s] is [null s]. *)
Definition null {A} (s : list A) : bool :=
  match s with [] => true | _ => false end.

End Text.
Import Text.

(** ** The cache key *)

Definition slash : N := 47.
Definition question : N := 63.
Definition colon : N := 58.
Definition underscore : N := 95.

(** [sanitize_filename(url)], lines 20-21. *)
Definition sanitize_filename (url : str) : str :=
  replace colon underscore
    (replace question underscore (replace slash underscore url)).
Arguments sanitize_filename : simpl never.

(** ** The world outside the handler *)

(** The inbound side of a TCP connection: what successive [recv] calls will
    find.  An exhausted list is a peer that has closed its write side. *)
Inductive arrival :=
| Data (d : bytes)
| ConnectionReset.

Abbreviation sock := (list arrival).

(** [sock.recv(bufsize)]: at most [bufsize] bytes of what has arrived; the
    rest stays queued.  [None] is a raised [OSError]. *)
Definition recv (bufsize : nat) (s : sock) : option bytes * sock :=
  match s with
  | [] => (Some [], [])
  | ConnectionReset :: r => (None, r)
  | Data d :: r =>
    (Some (take bufsize d),
     match drop bufsize d with
     | [] => r
     | d' => Data d' :: r
     end)
  end.

(** An entry of the cache directory. *)
Inductive node :=
| File (content : bytes)
| Directory.

Abbreviation cache_dir := (gmap (list N) node).

(** What [socket.gethostbyname] does: it returns an address, raises
    [socket.gaierror] (the resolver has no answer for the name), or raises
    something else (a name that cannot be encoded for the resolver). *)
Inductive resolution :=
| Resolved (ip : str)
| Gaierror
| ResolverError.

(** What [open(cache_file, "wb")] followed by [f.write] does: both
    succeed, [open] raises, or [write] raises with the file already
    created. *)
Inductive write_result :=
| Written
| OpenFailed
| WriteFailed.

(** An origin server as seen from [connect], [sendall] and [recv]. *)
Record upstream := {
  accepts : bool;
  takes : bytes -> bool;
  replies : bytes -> sock
}.

Record env := {
  gethostbyname : str -> resolution;
  origin : str -> upstream;
  disk : str -> bytes -> write_result
}.

(** The two library services whose tables are not reproduced here:
    [urllib.parse.urlparse], projected on the [netloc] and [path] fields the
    handler reads ([None] is the [ValueError] it raises on an authority it
    rejects), and the Unicode case mappings behind [str.upper] and
    [str.lower]. *)
Record runtime := {
  urlparse : str -> option (str * str);
  upper : str -> str;
  lower : str -> str
}.

(** Calls that leave the process, in program order. *)
Inductive event :=
| ClientRecv
| ClientSendall (data : bytes)
| ClientClose
| Makedirs
| PathExists (name : str)
| OpenRead (name : str)
| OpenWrite (name : str) (data : bytes)
| GetHostByName (host : str)
| Connect (ip : str) (port : N)
| ServerSendall (data : bytes)
| ServerRecv
| ServerClose.

Record state := {
  cache : cache_dir;
  client_sock : sock;
  server_sock : sock;
  trace : list event
}.

(** ** Control flow: values, [return], exceptions *)

Inductive exn :=
| UnicodeDecodeError
| UnicodeEncodeError
| ValueError
| OSError
| SocketGaierror.

Inductive outcome (A : Type) :=
| Value (a : A)
| Returned
| Raised (e : exn).
Arguments Value {A} a.
Arguments Returned {A}.
Arguments Raised {A} e.

Definition M (A : Type) : Type := state -> outcome A * state.

#[global] Instance M_ret : MRet M := fun A a st => (Value a, st).

#[global] Instance M_bind : MBind M := fun A B f m st =>
  match m st with
  | (Value a, st') => f a st'
  | (Returned, st') => (Returned, st')
  | (Raised e, st') => (Raised e, st')
  end.

Definition return_ {A} : M A := fun st => (Returned, st).
Definition raise {A} (e : exn) : M A := fun st => (Raised e, st).

Definition emit (e : event) (st : state) : state :=
  {| cache := cache st; client_sock := client_sock st;
     server_sock := server_sock st; trace := trace st ++ [e] |}.

Definition log (e : event) : M unit := fun st => (Value tt, emit e st).

Definition or_raise {A} (e : exn) (o : option A) : M A :=
  match o with
  | Some a => mret a
  | None => raise e
  end.

(** ** System calls *)

Definition set_client (s : sock) (st : state) : state :=
  {| cache := cache st; client_sock := s;
     server_sock := server_sock st; trace := trace st |}.

Definition set_server (s : sock) (st : state) : state :=
  {| cache := cache st; client_sock := client_sock st;
     server_sock := s; trace := trace st |}.

Definition set_cache (c : cache_dir) (st : state) : state :=
  {| cache := c; client_sock := client_sock st;
     server_sock := server_sock st; trace := trace st |}.

Definition client_recv (bufsize : nat) : M bytes := fun st =>
  let '(r, rest) := recv bufsize (client_sock st) in
  let st' := emit ClientRecv (set_client rest st) in
  match r with
  | Some d => (Value d, st')
  | None => (Raised OSError, st')
  end.

Definition client_sendall (data : bytes) : M unit := log (ClientSendall data).
Definition client_close : M unit := log ClientClose.

Definition server_recv (bufsize : nat) : M bytes := fun st =>
  let '(r, rest) := recv bufsize (server_sock st) in
  let st' := emit ServerRecv (set_server rest st) in
  match r with
  | Some d => (Value d, st')
  | None => (Raised OSError, st')
  end.

Definition server_close : M unit := log ServerClose.

(** [os.makedirs(CACHE_DIR, exist_ok=True)]. *)
Definition makedirs : M unit := log Makedirs.

(** [os.path.exists(cache_file)]. *)
Definition path_exists (name : str) : M bool := fun st =>
  (Value (match cache st !! name with Some _ => true | None => false end),
   emit (PathExists name) st).

(** [with open(cache_file, "rb") as f: response = f.read()]. *)
Definition contents (name : str) : M bytes := fun st =>
  match cache st !! name with
  | Some (File content) => (Value content, st)
  | _ => (Raised OSError, st)
  end.

Definition read_file (name : str) : M bytes :=
  log (OpenRead name);; contents name.

Section Calls.
Variable world : env.

(** [with open(cache_file, "wb") as f: f.write(response)].  A write that
    fails after the file was opened leaves it truncated. *)
Definition store (name : str) (data : bytes) : M unit := fun st =>
  match cache st !! name with
  | Some Directory => (Raised OSError, st)
  | _ =>
    match disk world name data with
    | Written => (Value tt, set_cache (<[name := File data]> (cache st)) st)
    | OpenFailed => (Raised OSError, st)
    | WriteFailed =>
      (Raised OSError, set_cache (<[name := File []]> (cache st)) st)
    end
  end.

Definition write_file (name : str) (data : bytes) : M unit :=
  log (OpenWrite name data);; store name data.

(** [socket.gethostbyname(host)]; the caller matches on the result, which
    is the [try]/[except socket.gaierror] of lines 100-107. *)
Definition resolve (host : str) : M resolution :=
  log (GetHostByName host);; mret (gethostbyname world host).

(** [server_sock = socket.socket(...); server_sock.connect((ip, port))]. *)
Definition connect (ip : str) (port : N) : M unit :=
  log (Connect ip port);;
  if accepts (origin world ip) then mret tt else raise OSError.

(** [server_sock.sendall(data)]: from here on the origin's answer to
    [data] is what [server_sock.recv] finds. *)
Definition answer_queued (s : sock) : M unit := fun st =>
  (Value tt, set_server s st).

Definition server_sendall (ip : str) (data : bytes) : M unit :=
  log (ServerSendall data);;
  if takes (origin world ip) data
  then answer_queued (replies (origin world ip) data)
  else raise OSError.

End Calls.

Definition BUFSIZE : nat := N.to_nat 8192.

(** The loop of lines 140-145.  Every [recv] either takes an arrival off
    the queue or shortens the first one, so [pending] bounds the number of
    iterations; running out of it is not a behaviour of the loop (see
    [recv_loop_enough]). *)
Fixpoint recv_loop (fuel : nat) (response : bytes) : M bytes :=
  match fuel with
  | O => raise OSError
  | S fuel' =>
    data ← server_recv BUFSIZE;
    if null data then mret response
    else recv_loop fuel' (response ++ data)
  end.

Definition weight (a : arrival) : nat :=
  match a with
  | Data d => S (length d)
  | ConnectionReset => 1
  end.

Definition pending (s : sock) : nat := S (list_sum (map weight s)).

Definition recv_until_closed : M bytes := fun st =>
  recv_loop (pending (server_sock st)) [] st.

(** ** The handler *)

Definition BAD_REQUEST : bytes :=
  blit "HTTP/1.1 400 Bad Request" ++ bcrlf ++ bcrlf.
Definition BAD_GATEWAY : bytes :=
  blit "HTTP/1.1 502 Bad Gateway" ++ bcrlf ++ bcrlf.
Definition INTERNAL_ERROR : bytes :=
  blit "HTTP/1.1 500 Internal Server Error" ++ bcrlf ++ bcrlf.
Definition OK_WRAPPER : bytes :=
  blit "HTTP/1.0 200 OK" ++ bcrlf ++ blit "Content-Type: text/html"
  ++ bcrlf ++ bcrlf.

Section Handler.
Variable py : runtime.
Variable world : env.

(** Lines 60-61: one leading slash is removed from the target. *)
Definition strip_slash (url : str) : str :=
  if startswith (lit "/") url then drop 1 url else url.

(** Line 65: the argument handed to [urlparse]. *)
Definition with_scheme (url : str) : str :=
  if contains (lit "://") url then url else lit "http://" ++ url.

(** Lines 115-120: the loop over [headers]. *)
Definition dropped (header : str) : bool :=
  startswith (lit "proxy-connection") (lower py header)
  || startswith (lit "connection") (lower py header).

Definition forward (headers : list str) : str :=
  fold_left
    (fun forward_headers header =>
       if dropped header then forward_headers
       else forward_headers ++ header ++ crlf)
    headers [].

(** Lines 130-134: the body appended for a POST. *)
Definition post_body (method request : str) : str :=
  if bool_decide (upper py method = lit "POST") then
    match find (crlf ++ crlf) request with
    | Some body_index => drop (body_index + 4) request
    | None => []
    end
  else [].

(** Lines 114-134: the request sent to the origin. *)
Definition outbound (method path host : str) (headers : list str)
    (request : str) : str :=
  let request_line := method ++ lit " " ++ path ++ lit " HTTP/1.1" ++ crlf in
  let forward_headers :=
    forward headers
    ++ (lit "Host: " ++ host ++ crlf)
    ++ (lit "Connection: close" ++ crlf)
    ++ (lit "User-Agent: PythonProxy/1.0" ++ crlf) in
  let full_request := request_line ++ forward_headers ++ crlf in
  full_request ++ post_body method request.

(** Lines 90-92: a cached reply that lacks a status line gets one. *)
Definition replay (response : bytes) : bytes :=
  if bstartswith (blit "HTTP/") response then response
  else OK_WRAPPER ++ response.

(** Lines 74-155: cache lookup, then either the cached reply or the
    exchange with the origin.  [url] is the target after [strip_slash]. *)
Definition relay (method url host path : str) (headers : list str)
    (request : str) : M unit :=
  makedirs;;
  let cache_file := sanitize_filename url in
  hit ← (if bool_decide (upper py method = lit "GET")
         then path_exists cache_file else mret false);
  if hit : bool then
    response ← read_file cache_file;
    let response := replay response in
    client_sendall response;;
    client_close;;
    return_
  else
    answer ← resolve world host;
    match answer with
    | Gaierror =>
      client_sendall BAD_GATEWAY;;
      client_close;;
      return_
    | ResolverError => raise OSError
    | Resolved server_ip =>
      connect world server_ip 80;;
      let full_request := outbound method path host headers request in
      wire ← or_raise UnicodeEncodeError (encode full_request);
      server_sendall world server_ip wire;;
      response ← recv_until_closed;
      (if bool_decide (upper py method = lit "GET")
       then write_file world cache_file response else mret tt);;
      client_sendall response;;
      server_close
    end.

(** Lines 30-72: decode and parse what was read, then [relay]. *)
Definition respond (data : bytes) : M unit :=
  request ← or_raise UnicodeDecodeError (decode data);
  if null request then client_close;; return_ else
  let lines := split_crlf request in
  if null lines then client_close;; return_ else
  let first_line := hd [] lines in
  match split first_line with
  | [method; url; protocol] =>
    let headers := tl lines in
    let url := strip_slash url in
    parsed ← or_raise ValueError (urlparse py (with_scheme url));
    let host := fst parsed in
    let path := snd parsed in
    let path := if null path then lit "/" else path in
    relay method url host path headers request
  | _ =>
    client_sendall BAD_REQUEST;;
    client_close;;
    return_
  end.

(** Lines 28-155: the body of the outer [try], which starts with the one
    [recv] on the client socket. *)
Definition serve : M unit :=
  data ← client_recv BUFSIZE;
  respond data.

(** Lines 156-166: the [except Exception] clause answers 500, and the
    [finally] clause closes the client socket on every path. *)
Definition conclude (run : outcome unit * state) : state :=
  let st := match fst run with
            | Raised _ => emit (ClientSendall INTERNAL_ERROR) (snd run)
            | _ => snd run
            end in
  emit ClientClose st.

(** [handle_client(client_sock, addr)], lines 25-166. *)
Definition handle_client (st : state) : state := conclude (serve st).

End Handler.

(** One accepted connection served against a cache directory: the calls
    made and the directory afterwards. *)
Definition accepted (fs : cache_dir) (client : sock) : state :=
  {| cache := fs; client_sock := client; server_sock := []; trace := [] |}.

Definition session (py : runtime) (world : env) (fs : cache_dir)
    (client : sock) : list event * cache_dir :=
  let st := handle_client py world (accepted fs client) in
  (trace st, cache st).

(** ** A reference runtime

    The instance of [runtime] used wherever a run is evaluated.  Case
    mapping is the ASCII one (code points outside ASCII are left alone).
    [urlparse] follows CPython's [urlsplit] and [urlparse] on the two
    fields the handler reads; the two validations CPython runs on
    non-ASCII and on bracketed authorities (NFKC normalisation, IP literal
    syntax) are not reproduced, a lone bracket is rejected. *)
Module CPython.

Definition upper_char (c : N) : N := if between 97 122 c then c - 32 else c.
Definition lower_char (c : N) : N := if between 65 90 c then c + 32 else c.
Definition ascii_upper (s : str) : str := map upper_char s.
Definition ascii_lower (s : str) : str := map lower_char s.

Definition isalpha (c : N) : bool := between 65 90 c || between 97 122 c.
Definition isdigit (c : N) : bool := between 48 57 c.
Definition scheme_char (c : N) : bool :=
  isalpha c || isdigit c || (c =? 43) || (c =? 45) || (c =? 46).

Fixpoint index_where (f : N -> bool) (s : str) : nat :=
  match s with
  | [] => 0
  | c :: r => if f c then 0 else S (index_where f r)
  end.
Definition has (c : N) (s : str) : bool := existsb (N.eqb c) s.
Definition before (c : N) (s : str) : str := take (index_where (N.eqb c) s) s.

(** [urlsplit]: the scheme, the authority, and what is left of the URL
    before its query and fragment. *)
Definition split_scheme (url : str) : str * str :=
  let i := index_where (N.eqb colon) url in
  match url with
  | c :: _ =>
    if has colon url && negb (i =? 0)%nat && isalpha c
       && forallb scheme_char (take i url)
    then (ascii_lower (take i url), drop (S i) url)
    else ([], url)
  | [] => ([], url)
  end.

Definition delimiter (c : N) : bool :=
  (c =? slash) || (c =? question) || (c =? 35).

Definition split_netloc (url : str) : option (str * str) :=
  if startswith (lit "//") url then
    let rest := drop 2 url in
    let delim := index_where delimiter rest in
    let netloc := take delim rest in
    if xorb (has 91 netloc) (has 93 netloc) then None
    else Some (netloc, drop delim rest)
  else Some ([], url).

Definition uses_params : list str :=
  map lit ["ftp"; "hdl"; "prospero"; "http"; "imap"; "https"; "shttp";
           "rtsp"; "rtspu"; "sip"; "sips"; "mms"; "sftp"; "tel"]%string.

(** [_splitparams]: the path up to the first [;] of its last segment. *)
Fixpoint split_params (segment : str) (url : str) : str :=
  match url with
  | [] => before 59 (rev segment)
  | c :: r =>
    if c =? slash then rev segment ++ c :: split_params [] r
    else split_params (c :: segment) r
  end.

Definition urlparse_model (url : str) : option (str * str) :=
  let url := drop (index_where (fun c => 32 <? c) url) url in
  let url := List.filter (fun c => negb ((c =? 9) || (c =? 10) || (c =? 13))) url in
  let '(scheme, url) := split_scheme url in
  match split_netloc url with
  | None => None
  | Some (netloc, url) =>
    let url := before question (before 35 url) in
    let in_list := existsb (fun s => bool_decide (s = scheme)) ([] :: uses_params) in
    Some (netloc, if in_list then split_params [] url else url)
  end.

Definition cpython : runtime :=
  {| urlparse := urlparse_model; upper := ascii_upper; lower := ascii_lower |}.

End CPython.
Import CPython.

(** ** Reading a trace *)

(** What the client was sent, in order. *)
Definition to_client (t : list event) : list bytes :=
  omap (fun e => match e with ClientSendall d => Some d | _ => None end) t.


(** How many connections were opened, how many reads made on the client. *)
Definition connections (t : list event) : nat :=
  length (List.filter (fun e => match e with Connect _ _ => true | _ => false end) t).

Definition client_reads (t : list event) : nat :=
  length (List.filter (fun e => match e with ClientRecv => true | _ => false end) t).

(** The cache file a call names, if it is a call on the cache. *)
Definition cache_file_of (e : event) : option str :=
  match e with
  | PathExists name | OpenRead name | OpenWrite name _ => Some name
  | _ => None
  end.

(** What was sent to the origin, in order. *)
Definition to_origin (t : list event) : list bytes :=
  omap (fun e => match e with ServerSendall d => Some d | _ => None end) t.

(** What the [recv] loop returns on a given queue: everything up to the
    first empty read, [None] when a [recv] raises first. *)
Fixpoint drain (s : sock) : option bytes :=
  match s with
  | [] => Some []
  | ConnectionReset :: _ => None
  | Data [] :: _ => Some []
  | Data d :: r => app d <$> drain r
  end.

(** A request that arrives whole in the first read and parses: the first
    [recv] yields bytes that decode to the non-empty text [request], whose
    first line is [method target protocol], and [urlparse] accepts the
    target. *)
Definition arrives (py : runtime) (client : sock)
    (request method target protocol host path : str) : Prop :=
  exists data,
    fst (recv BUFSIZE client) = Some data
    /\ decode data = Some request
    /\ request <> []
    /\ split (hd [] (split_crlf request)) = [method; target; protocol]
    /\ urlparse py (with_scheme (strip_slash target)) = Some (host, path).

(** Lines 71-72: an empty path stands for the root. *)
Definition or_root (path : str) : str := if null path then lit "/" else path.

(** The state in which parsing starts: one read done. *)
Definition after_read (fs : cache_dir) (client : sock) : state :=
  emit ClientRecv (set_client (snd (recv BUFSIZE client)) (accepted fs client)).

(** A reference scenario: one origin that answers every request with the
    same bytes, a resolver that knows one name, and a disk that may be
    failing. *)
Module Scenario.

Definition reply : bytes :=
  blit "HTTP/1.0 200 OK" ++ bcrlf ++ bcrlf ++ blit "<html>hi</html>".

Definition get_request : bytes :=
  blit "GET http://example.test/a.html HTTP/1.1" ++ bcrlf
  ++ blit "Host: example.test" ++ bcrlf ++ bcrlf.

Definition server : upstream :=
  {| accepts := true; takes := fun _ => true; replies := fun _ => [Data reply] |}.

Definition address : str := lit "192.0.2.7".

Definition internet (writes : write_result) : env :=
  {| gethostbyname := fun name =>
       if bool_decide (name = lit "example.test") then Resolved address
       else Gaierror;
     origin := fun _ => server;
     disk := fun _ _ => writes |}.

Definition healthy : env := internet Written.

(** A network on which nothing can be reached and nothing written. *)
Definition dead : env :=
  {| gethostbyname := fun _ => Gaierror; origin := fun _ => server;
     disk := fun _ _ => OpenFailed |}.

Definition get_text : str :=
  lit "GET http://example.test/a.html HTTP/1.1" ++ crlf
  ++ lit "Host: example.test" ++ crlf ++ crlf.

(** What the proxy sends to the origin for [get_request]. *)
Definition get_wire : bytes :=
  blit "GET /a.html HTTP/1.1" ++ bcrlf
  ++ blit "Host: example.test" ++ bcrlf ++ bcrlf ++ bcrlf
  ++ blit "Host: example.test" ++ bcrlf
  ++ blit "Connection: close" ++ bcrlf
  ++ blit "User-Agent: PythonProxy/1.0" ++ bcrlf ++ bcrlf.

(** A POST with connection headers among others, and what the proxy
    sends to the origin for it. *)
Definition post_request : bytes :=
  blit "POST http://example.test/form HTTP/1.1" ++ bcrlf
  ++ blit "Accept: */*" ++ bcrlf
  ++ blit "Proxy-Connection: keep-alive" ++ bcrlf
  ++ blit "CONNECTION: keep-alive" ++ bcrlf
  ++ blit "X-Last: 1" ++ bcrlf ++ bcrlf
  ++ blit "a=1".

Definition post_text : str :=
  lit "POST http://example.test/form HTTP/1.1" ++ crlf
  ++ lit "Accept: */*" ++ crlf
  ++ lit "Proxy-Connection: keep-alive" ++ crlf
  ++ lit "CONNECTION: keep-alive" ++ crlf
  ++ lit "X-Last: 1" ++ crlf ++ crlf
  ++ lit "a=1".

Definition post_wire : bytes :=
  blit "POST /form HTTP/1.1" ++ bcrlf
  ++ blit "Accept: */*" ++ bcrlf
  ++ blit "X-Last: 1" ++ bcrlf ++ bcrlf
  ++ blit "a=1" ++ bcrlf
  ++ blit "Host: example.test" ++ bcrlf
  ++ blit "Connection: close" ++ bcrlf
  ++ blit "User-Agent: PythonProxy/1.0" ++ bcrlf ++ bcrlf
  ++ blit "a=1".

End Scenario.

(** ** Reading a session *)

(** Calls on the client socket only. *)
Definition quiet (e : event) : Prop :=
  match e with
  | ClientRecv | ClientSendall _ | ClientClose => True
  | _ => False
  end.

(** Whether the handler finds a GET on the request line it reads. *)
Definition asks_get (py : runtime) (client : sock) : bool :=
  match fst (recv BUFSIZE client) with
  | Some data =>
    match decode data with
    | Some request =>
      match split (hd [] (split_crlf request)) with
      | [method; _; _] => bool_decide (upper py method = lit "GET")
      | _ => false
      end
    | None => false
    end
  | None => false
  end.

(** Connections served one after the other against the same directory. *)
Definition serve_all (py : runtime) (sessions : list (env * sock))
    (fs : cache_dir) : cache_dir :=
  fold_left (fun fs s => snd (session py (fst s) fs (snd s))) sessions fs.

(** What the first [recv] leaves of the client's queue out of account. *)
Definition first_read (client : sock) : sock :=
  match client with
  | [] => []
  | ConnectionReset :: _ => [ConnectionReset]
  | Data d :: _ => [Data (take BUFSIZE d)]
  end.

Definition outcome_of (st : state) : list event * cache_dir :=
  (trace st, cache st).

(** ** Judgements on handler code

    Three properties of a piece of monadic code, each closed under
    sequencing: the calls it adds to the trace all satisfy a predicate; the
    cache directory it leaves is related to the one it found; it neither
    looks at nor touches the client socket's queue. *)

Definition emits (ok : event -> Prop) {A} (m : M A) : Prop :=
  forall st, exists t, trace (snd (m st)) = trace st ++ t /\ Forall ok t.

Definition preserves (R : cache_dir -> cache_dir -> Prop) {A} (m : M A) : Prop :=
  forall st, R (cache st) (cache (snd (m st))).

(** Two cache directories that agree everywhere except perhaps at [key]. *)
Definition agree_off (key : str) (c c' : cache_dir) : Prop :=
  forall name, name <> key -> c' !! name = c !! name.

Definition blind {A} (m : M A) : Prop :=
  forall st s, m (set_client s st) = (fst (m st), set_client s (snd (m st))).

(** ** What [relay] can do, and the states it goes through *)

Section RelaySpec.
Variable py : runtime.
Variable world : env.
Variables method url host path : str.
Variable headers : list str.
Variable request : str.

Let key : str := sanitize_filename url.
Let GET : Prop := upper py method = lit "GET".

(** The calls [relay] can make: every cache call names [key] and is made
    for a GET only, and the only thing ever sent to the origin is the
    encoded [outbound] request. *)
Inductive relay_call : event -> Prop :=
| call_makedirs : relay_call Makedirs
| call_exists : GET -> relay_call (PathExists key)
| call_read : GET -> relay_call (OpenRead key)
| call_write data : GET -> relay_call (OpenWrite key data)
| call_resolve : relay_call (GetHostByName host)
| call_connect ip : relay_call (Connect ip 80)
| call_send wire :
    encode (outbound py method path host headers request) = Some wire ->
    relay_call (ServerSendall wire)
| call_recv : relay_call ServerRecv
| call_server_close : relay_call ServerClose
| call_reply data : relay_call (ClientSendall data)
| call_close : relay_call ClientClose.

(** The calls [st] has made so far, then [t]. *)
Definition then_calls (t : list event) (st : state) : state :=
  {| cache := cache st; client_sock := client_sock st;
     server_sock := server_sock st; trace := trace st ++ t |}.

(** The lookup of line 83: [os.path.exists] is reached for a GET only. *)
Definition lookup_calls : list event :=
  if bool_decide (upper py method = lit "GET") then [PathExists key] else [].

Definition cache_hit (fs : cache_dir) : bool :=
  bool_decide (upper py method = lit "GET")
  && match fs !! key with Some _ => true | None => false end.

(** The state once the origin's answer has been read in full. *)
Definition fetched (st : state) (ip : str) (wire : bytes) (n : nat)
    (s' : sock) : state :=
  {| cache := cache st; client_sock := client_sock st; server_sock := s';
     trace := trace st ++ [Makedirs] ++ lookup_calls
              ++ [GetHostByName host; Connect ip 80; ServerSendall wire]
              ++ repeat ServerRecv n |}.

(** Lines 147-155: what is left to do with the answer. *)
Definition deliver (response : bytes) : M unit :=
  (if bool_decide (upper py method = lit "GET")
   then write_file world key response else mret tt);;
  client_sendall response;;
  server_close.

End RelaySpec.

(** ** Further vocabulary for the statements *)

(** [sep.join(parts)]. *)
Fixpoint join (sep : str) (parts : list str) : str :=
  match parts with
  | [] => []
  | [p] => p
  | p :: ps => p ++ sep ++ join sep ps
  end.

(** The characters [sanitize_filename] replaces. *)
Definition separator (c : N) : bool :=
  (c =? slash) || (c =? question) || (c =? colon).

(** A token of [split()]: not empty, no white space. *)
Definition word (w : str) : Prop :=
  w <> [] /\ Forall (fun c => isspace c = false) w.

(** The two branches of [relay], named. *)
Section Exchange.
Variable py : runtime.
Variable world : env.
Variables method url host path : str.
Variable headers : list str.
Variable request : str.

(** Lines 103-155: what follows the resolver's answer. *)
Definition forward_to (answer : resolution) : M unit :=
  match answer with
  | Gaierror =>
    client_sendall BAD_GATEWAY;;
    client_close;;
    return_
  | ResolverError => raise OSError
  | Resolved server_ip =>
    connect world server_ip 80;;
    let full_request := outbound py method path host headers request in
    wire ← or_raise UnicodeEncodeError (encode full_request);
    server_sendall world server_ip wire;;
    response ← recv_until_closed;
    (if bool_decide (upper py method = lit "GET")
     then write_file world (sanitize_filename url) response else mret tt);;
    client_sendall response;;
    server_close
  end.

(** Lines 99-155: what [relay] does when the cache does not answer. *)
Definition exchange : M unit :=
  answer ← resolve world host;
  forward_to answer.

(** Lines 83-97: what [relay] does when the cache answers. *)
Definition from_cache : M unit :=
  response ← read_file (sanitize_filename url);
  let response := replay response in
  client_sendall response;;
  client_close;;
  return_.
End Exchange.

(** How many messages the client has been sent. *)
Definition sent (st : state) : nat := length (to_client (trace st)).

(** Code that sends the client one message when it returns, [nv] when it
    runs to its end, and none when it raises. *)
Definition answers (nv : nat) {A} (m : M A) : Prop :=
  forall st,
    sent (snd (m st))
    = (match fst (m st) with
       | Raised _ => 0
       | Returned => 1
       | Value _ => nv
       end + sent st)%nat.

(** Code that sends the client nothing and does not raise. *)
Definition closing {A} (m : M A) : Prop :=
  forall st,
    sent (snd (m st)) = sent st /\ forall e, fst (m st) <> Raised e.

(** Calls on an open connection to the origin, short of closing it. *)
Definition upstream_call (e : event) : Prop :=
  match e with
  | Connect _ _ | ServerSendall _ | ServerRecv => True
  | _ => False
  end.

(** The exchange with the origin at [ip] cannot be completed. *)
Definition exchange_fails (world : env) (ip : str) (full_request : str) : Prop :=
  accepts (origin world ip) = false
  \/ encode full_request = None
  \/ exists wire,
       encode full_request = Some wire
       /\ (takes (origin world ip) wire = false
           \/ drain (replies (origin world ip) wire) = None).

(** ** The accept loop of [main] *)

(** What one call of [tcpSerSock.accept()] does: a connection, the
    one-second timeout, Ctrl-C while waiting, or another error. *)
Inductive accept_result :=
| Accepted (client_sock : sock) (addr : str)
| TimedOut
| Interrupted
| AcceptFailed.

Inductive main_event :=
| PrintUsage
| Bind (ip : str) (port : N)
| Listen (backlog : N)
| SetTimeout (seconds : N)
| StartThread (client_sock : sock) (addr : str)
| CloseListener.

(** How [main] ends: [sys.exit(code)], an exception nobody catches, or
    still looping when the accept results considered are used up. *)
Inductive ending :=
| Exit (code : N)
| Uncaught
| Looping.

(** Lines 194-211: the loop and its [except KeyboardInterrupt]. *)
Fixpoint accept_loop (results : list accept_result)
  : list main_event * ending :=
  match results with
  | [] => ([], Looping)
  | TimedOut :: rest => accept_loop rest
  | Accepted client_sock addr :: rest =>
    let '(calls, e) := accept_loop rest in
    (StartThread client_sock addr :: calls, e)
  | Interrupted :: _ => ([CloseListener], Exit 0)
  | AcceptFailed :: _ => ([], Uncaught)
  end.

(** [main()], lines 170-211.  [bound] is whether [bind] succeeds;
    [listen], [settimeout] and starting a thread are taken to succeed. *)
Definition main (argv : list str) (bound : bool)
    (results : list accept_result) : list main_event * ending :=
  match argv with
  | _ :: SERVER_IP :: _ =>
    let SERVER_PORT := 8888 in
    if bound then
      let '(calls, e) := accept_loop results in
      ([Bind SERVER_IP SERVER_PORT; Listen 5; SetTimeout 1] ++ calls, e)
    else ([Bind SERVER_IP SERVER_PORT], Uncaught)
  | _ => ([PrintUsage], Exit 2)
  end.

(** The connections among some accept results, as thread starts. *)
Definition threads_for (results : list accept_result) : list main_event :=
  omap (fun r => match r with
                 | Accepted client_sock addr => Some (StartThread client_sock addr)
                 | _ => None
                 end) results.

(** Accept results that keep the loop going. *)
Definition keeps_looping (r : accept_result) : Prop :=
  match r with
  | Accepted _ _ | TimedOut => True
  | _ => False
  end.

(** Further reference cases. *)
Module Cases.

(** A resolver that knows every name, in front of the scenario's origin. *)
Definition anywhere : env :=
  {| gethostbyname := fun _ => Resolved Scenario.address;
     origin := fun _ => Scenario.server;
     disk := fun _ _ => Written |}.

(** The same resolver in front of an origin that refuses connections. *)
Definition refusing : env :=
  {| gethostbyname := fun _ => Resolved Scenario.address;
     origin := fun _ =>
       {| accepts := false; takes := fun _ => true; replies := fun _ => [] |};
     disk := fun _ _ => Written |}.

Definition root_request : bytes := blit "GET / HTTP/1.1" ++ bcrlf ++ bcrlf.
Definition root_text : str := lit "GET / HTTP/1.1" ++ crlf ++ crlf.

Definition port_request : bytes :=
  blit "GET http://example.test:8080/x HTTP/1.1" ++ bcrlf ++ bcrlf.
Definition port_text : str :=
  lit "GET http://example.test:8080/x HTTP/1.1" ++ crlf ++ crlf.

(** A target that is already the file name of the scenario's URL. *)
Definition twin_request : bytes :=
  blit "GET http___example.test_a.html HTTP/1.1" ++ bcrlf ++ bcrlf.
Definition twin_text : str :=
  lit "GET http___example.test_a.html HTTP/1.1" ++ crlf ++ crlf.

End Cases.

(** * Proofs *)

(** ** The text primitives on sample inputs *)

Example split_crlf_blank_line :
  split_crlf (lit "a" ++ crlf ++ crlf ++ lit "b") = [lit "a"; []; lit "b"].
Proof. reflexivity. Qed.

Example split_crlf_lone_cr :
  split_crlf [CR; CR; LF] = [[CR]; []].
Proof. reflexivity. Qed.

Example split_runs_of_spaces :
  split (lit "  GET   /x HTTP/1.1 ") = [lit "GET"; lit "/x"; lit "HTTP/1.1"].
Proof. reflexivity. Qed.

Example split_of_blank : split (lit "   ") = [].
Proof. reflexivity. Qed.

Example decode_two_bytes : decode [xc3; xa9] = Some [233].
Proof. reflexivity. Qed.

Example decode_rejects_overlong : decode [xc0; x80] = None.
Proof. reflexivity. Qed.

Example decode_rejects_truncated : decode [xe2; x82] = None.
Proof. reflexivity. Qed.

Example encode_three_bytes : encode [8364] = Some [xe2; x82; xac].
Proof. reflexivity. Qed.

Example find_body : find (crlf ++ crlf) (lit "ab" ++ crlf ++ crlf ++ lit "c") = Some 2%nat.
Proof. reflexivity. Qed.

Example urlparse_with_port_and_query :
  urlparse_model (lit "http://example.test:8080/a/b;p?q=1#f")
  = Some (lit "example.test:8080", lit "/a/b").
Proof. vm_compute. reflexivity. Qed.

Example urlparse_no_path :
  urlparse_model (lit "http://example.test") = Some (lit "example.test", []).
Proof. vm_compute. reflexivity. Qed.

Example urlparse_lone_bracket : urlparse_model (lit "http://[example/") = None.
Proof. vm_compute. reflexivity. Qed.

(** ** The cache key is safe as a file name, and not injective *)

Lemma sanitize_filename_safe (url : str) (c : N) :
  In c (sanitize_filename url) ->
  c <> slash /\ c <> question /\ c <> colon.
Proof.
  unfold sanitize_filename, replace. rewrite !map_map.
  intros Hin. apply in_map_iff in Hin as (x & <- & _).
  destruct (x =? slash) eqn:E1; [by vm_compute|].
  destruct (x =? question) eqn:E2; [by vm_compute|].
  destruct (x =? colon) eqn:E3; [by vm_compute|].
  apply N.eqb_neq in E1, E2, E3. done.
Qed.

Example sanitize_filename_collision :
  sanitize_filename (lit "a/b") = sanitize_filename (lit "a_b").
Proof. reflexivity. Qed.

(** ** The receive loop terminates *)

Lemma split_crlf_nonempty (s : str) : split_crlf s <> [].
Proof.
  induction s as [|c r IH]; [discriminate|].
  cbn [split_crlf]. destruct r as [|d r'].
  - discriminate.
  - destruct ((c =? CR) && (d =? LF)); [discriminate|].
    unfold push. destruct (split_crlf (d :: r')); discriminate.
Qed.

Lemma pending_recv (s : sock) :
  s <> [] -> (pending (snd (recv BUFSIZE s)) < pending s)%nat.
Proof.
  destruct s as [|[d0|] r]; [congruence| |]; intros _; unfold pending; cbn.
  - assert (Hb : (0 < BUFSIZE)%nat) by (vm_compute; lia).
    destruct (drop BUFSIZE d0) as [|b l] eqn:E; cbn; [lia|].
    assert (Hl : length (drop BUFSIZE d0) = S (length l)) by by rewrite E.
    rewrite length_drop in Hl. lia.
  - lia.
Qed.

Lemma drain_recv (d : bytes) (r : sock) :
  d <> [] ->
  drain (Data d :: r)
  = app (take BUFSIZE d) <$> drain (snd (recv BUFSIZE (Data d :: r))).
Proof.
  intros Hd.
  assert (Hcons : drain (Data d :: r) = app d <$> drain r)
    by (destruct d; [done | reflexivity]).
  rewrite Hcons. cbn [recv snd].
  destruct (drop BUFSIZE d) as [|x y] eqn:E.
  - rewrite <- (take_drop BUFSIZE d) at 1. by rewrite E, app_nil_r.
  - change (drain (Data (x :: y) :: r)) with (app (x :: y) <$> drain r).
    rewrite <- E. destruct (drain r) as [rest|]; cbn; [|done].
    by rewrite app_assoc, take_drop.
Qed.

Lemma take_bufsize_nonempty (d : bytes) : d <> [] -> take BUFSIZE d <> [].
Proof.
  destruct d; [done|]. intros _.
  change BUFSIZE with (S (pred BUFSIZE)). done.
Qed.

Lemma server_recv_run (n : nat) (st : state) :
  server_recv n st
  = (match fst (recv n (server_sock st)) with
     | Some d => Value d
     | None => Raised OSError
     end,
     emit ServerRecv (set_server (snd (recv n (server_sock st))) st)).
Proof.
  unfold server_recv. by destruct (recv n (server_sock st)) as [[d|] rest].
Qed.

Lemma recv_loop_step (fuel : nat) (acc d : bytes) (r : sock) (st : state) :
  server_sock st = Data d :: r -> d <> [] ->
  recv_loop (S fuel) acc st
  = recv_loop fuel (acc ++ take BUFSIZE d)
      (emit ServerRecv (set_server (snd (recv BUFSIZE (Data d :: r))) st)).
Proof.
  intros Hs Hd. cbn [recv_loop]. unfold mbind, M_bind.
  rewrite server_recv_run, Hs. cbn [recv fst].
  pose proof (take_bufsize_nonempty d Hd) as Ht.
  by destruct (take BUFSIZE d).
Qed.

Lemma recv_loop_stop (fuel : nat) (acc : bytes) (st : state) :
  fst (recv BUFSIZE (server_sock st)) = Some [] ->
  recv_loop (S fuel) acc st
  = (Value acc,
     emit ServerRecv (set_server (snd (recv BUFSIZE (server_sock st))) st)).
Proof.
  intros Hs. cbn [recv_loop]. unfold mbind, M_bind.
  by rewrite server_recv_run, Hs.
Qed.

Lemma recv_loop_raise (fuel : nat) (acc : bytes) (st : state) :
  fst (recv BUFSIZE (server_sock st)) = None ->
  recv_loop (S fuel) acc st
  = (Raised OSError,
     emit ServerRecv (set_server (snd (recv BUFSIZE (server_sock st))) st)).
Proof.
  intros Hs. cbn [recv_loop]. unfold mbind, M_bind.
  by rewrite server_recv_run, Hs.
Qed.

Lemma recv_loop_enough (fuel : nat) :
  forall (st : state) (acc : bytes),
    (pending (server_sock st) <= fuel)%nat ->
    exists n s',
      recv_loop fuel acc st =
      (match drain (server_sock st) with
       | Some d => Value (acc ++ d)
       | None => Raised OSError
       end,
       {| cache := cache st; client_sock := client_sock st;
          server_sock := s'; trace := trace st ++ repeat ServerRecv n |}).
Proof.
  induction fuel as [|fuel IH]; intros st acc Hf.
  - unfold pending in Hf. lia.
  - destruct (server_sock st) as [|[d|] r] eqn:Hs.
    + exists 1%nat, []. rewrite recv_loop_stop by by rewrite Hs.
      rewrite Hs. cbn [drain recv snd]. by rewrite app_nil_r.
    + destruct (decide (d = [])) as [->|Hd].
      { exists 1%nat, r. rewrite recv_loop_stop by by rewrite Hs.
        rewrite Hs. cbn [drain recv snd]. rewrite drop_nil.
        by rewrite app_nil_r. }
      rewrite (recv_loop_step fuel acc d r st Hs Hd).
      set (st1 := emit ServerRecv _).
      destruct (IH st1 (acc ++ take BUFSIZE d)) as (n & s' & Hrun).
      { pose proof (pending_recv (Data d :: r) ltac:(done)). subst st1.
        cbn [server_sock emit set_server]. lia. }
      exists (S n), s'. rewrite Hrun, (drain_recv d r Hd). subst st1.
      cbn [server_sock emit set_server cache client_sock trace].
      rewrite <- (app_assoc (trace st) [ServerRecv] (repeat ServerRecv n)).
      change ([ServerRecv] ++ repeat ServerRecv n)
        with (repeat ServerRecv (S n)).
      destruct (drain (snd (recv BUFSIZE (Data d :: r)))) as [rest|];
        cbn [fmap option_fmap option_map]; [|reflexivity].
      rewrite <- (app_assoc acc (take BUFSIZE d) rest). reflexivity.
    + exists 1%nat, r. rewrite recv_loop_raise by by rewrite Hs.
      by rewrite Hs.
Qed.

Lemma recv_until_closed_spec (st : state) :
  exists n s',
    recv_until_closed st =
    (match drain (server_sock st) with
     | Some d => Value d
     | None => Raised OSError
     end,
     {| cache := cache st; client_sock := client_sock st;
        server_sock := s'; trace := trace st ++ repeat ServerRecv n |}).
Proof.
  unfold recv_until_closed.
  destruct (recv_loop_enough (pending (server_sock st)) st [] ltac:(lia))
    as (n & s' & H).
  exists n, s'. rewrite H. by destruct (drain (server_sock st)).
Qed.

(** ** The judgements are closed under sequencing *)

Section Emits.
Variable ok : event -> Prop.

Lemma emits_ret {A} (a : A) : emits ok (mret a).
Proof. intros st. exists []. by rewrite app_nil_r. Qed.

Lemma emits_return {A} : emits ok (@return_ A).
Proof. intros st. exists []. by rewrite app_nil_r. Qed.

Lemma emits_raise {A} (e : exn) : emits ok (@raise A e).
Proof. intros st. exists []. by rewrite app_nil_r. Qed.

Lemma emits_or_raise {A} (e : exn) (o : option A) : emits ok (or_raise e o).
Proof. destruct o; [apply emits_ret | apply emits_raise]. Qed.

Lemma emits_bind {A B} (m : M A) (k : A -> M B) :
  emits ok m -> (forall a, emits ok (k a)) -> emits ok (m ≫= k).
Proof.
  intros Hm Hk st. destruct (Hm st) as (t1 & E1 & F1).
  unfold mbind, M_bind. destruct (m st) as [[a| |e] st1]; cbn in E1 |- *; eauto.
  destruct (Hk a st1) as (t2 & E2 & F2).
  exists (t1 ++ t2). rewrite E2, E1, app_assoc. split; [done|].
  by apply Forall_app.
Qed.

Lemma emits_ret_bind {A B} (a : A) (k : A -> M B) :
  emits ok (k a) -> emits ok (mret a ≫= k).
Proof. intros H st. exact (H st). Qed.

Lemma emits_raise_bind {A B} (e : exn) (k : A -> M B) :
  emits ok (raise e ≫= k).
Proof. intros st. exists []. by rewrite app_nil_r. Qed.

Lemma emits_log (e : event) : ok e -> emits ok (log e).
Proof. intros He st. exists [e]. split; [done|]. by constructor. Qed.

Lemma emits_client_recv (n : nat) : ok ClientRecv -> emits ok (client_recv n).
Proof.
  intros He st. exists [ClientRecv]. unfold client_recv.
  destruct (recv n (client_sock st)) as [[d|] rest]; (split; [done|by constructor]).
Qed.

Lemma emits_server_recv (n : nat) : ok ServerRecv -> emits ok (server_recv n).
Proof.
  intros He st. exists [ServerRecv]. unfold server_recv.
  destruct (recv n (server_sock st)) as [[d|] rest]; (split; [done|by constructor]).
Qed.

Lemma emits_recv_until_closed : ok ServerRecv -> emits ok recv_until_closed.
Proof.
  intros He st. destruct (recv_until_closed_spec st) as (n & s' & ->).
  exists (repeat ServerRecv n). split; [done|].
  induction n; cbn; by constructor.
Qed.

Lemma emits_path_exists (name : str) :
  ok (PathExists name) -> emits ok (path_exists name).
Proof. intros He st. exists [PathExists name]. split; [done|]. by constructor. Qed.

Lemma emits_contents (name : str) : emits ok (contents name).
Proof.
  intros st. exists []. rewrite app_nil_r. unfold contents.
  by destruct (cache st !! name) as [[?|]|].
Qed.

Lemma emits_store (world : env) (name : str) (data : bytes) :
  emits ok (store world name data).
Proof.
  intros st. exists []. rewrite app_nil_r. unfold store.
  destruct (cache st !! name) as [[?|]|]; [|done|];
    by destruct (disk world name data).
Qed.

Lemma emits_answer_queued (s : sock) : emits ok (answer_queued s).
Proof. intros st. exists []. by rewrite app_nil_r. Qed.

End Emits.

Section Preserves.
(** The cache directory afterwards is related to the one before by [R],
    for a reflexive and transitive [R]. *)
Variable R : cache_dir -> cache_dir -> Prop.
Hypothesis R_refl : forall c, R c c.
Hypothesis R_trans : forall c1 c2 c3, R c1 c2 -> R c2 c3 -> R c1 c3.

Lemma preserves_ret {A} (a : A) : preserves R (mret a).
Proof. intros st. apply R_refl. Qed.

Lemma preserves_return {A} : preserves R (@return_ A).
Proof. intros st. apply R_refl. Qed.

Lemma preserves_raise {A} (e : exn) : preserves R (@raise A e).
Proof. intros st. apply R_refl. Qed.

Lemma preserves_or_raise {A} (e : exn) (o : option A) :
  preserves R (or_raise e o).
Proof. destruct o; intros st; apply R_refl. Qed.

Lemma preserves_bind {A B} (m : M A) (k : A -> M B) :
  preserves R m -> (forall a, preserves R (k a)) -> preserves R (m ≫= k).
Proof.
  intros Hm Hk st. specialize (Hm st). unfold mbind, M_bind.
  destruct (m st) as [[a| |e] st1]; cbn in Hm |- *; try done.
  eapply R_trans; [exact Hm | apply Hk].
Qed.

Lemma preserves_log (e : event) : preserves R (log e).
Proof. intros st. apply R_refl. Qed.

Lemma preserves_client_recv (n : nat) : preserves R (client_recv n).
Proof.
  intros st. unfold client_recv.
  destruct (recv n (client_sock st)) as [[d|] rest]; apply R_refl.
Qed.

Lemma preserves_recv_until_closed : preserves R recv_until_closed.
Proof.
  intros st. destruct (recv_until_closed_spec st) as (n & s' & ->).
  apply R_refl.
Qed.

Lemma preserves_path_exists (name : str) : preserves R (path_exists name).
Proof. intros st. apply R_refl. Qed.

Lemma preserves_contents (name : str) : preserves R (contents name).
Proof.
  intros st. unfold contents.
  destruct (cache st !! name) as [[?|]|]; apply R_refl.
Qed.

Lemma preserves_answer_queued (s : sock) : preserves R (answer_queued s).
Proof. intros st. apply R_refl. Qed.

Lemma preserves_store (world : env) (name : str) (data : bytes) :
  (forall c v, R c (<[name := v]> c)) -> preserves R (store world name data).
Proof.
  intros Hins st. unfold store.
  destruct (cache st !! name) as [[?|]|]; [|apply R_refl|];
    destruct (disk world name data); cbn; auto.
Qed.

End Preserves.

Lemma agree_off_refl (key : str) (c : cache_dir) : agree_off key c c.
Proof. done. Qed.

Lemma agree_off_trans (key : str) (c1 c2 c3 : cache_dir) :
  agree_off key c1 c2 -> agree_off key c2 c3 -> agree_off key c1 c3.
Proof. intros H12 H23 name Hne. by rewrite H23, H12. Qed.

Lemma agree_off_insert (key : str) (c : cache_dir) (v : node) :
  agree_off key c (<[key := v]> c).
Proof. intros name Hne. by rewrite lookup_insert_ne. Qed.

Section Blind.
(** The client socket's queue is neither looked at nor changed: the code
    runs the same whatever is queued there. *)
Lemma blind_ret {A} (a : A) : blind (mret a).
Proof. done. Qed.

Lemma blind_return {A} : blind (@return_ A).
Proof. done. Qed.

Lemma blind_raise {A} (e : exn) : blind (@raise A e).
Proof. done. Qed.

Lemma blind_or_raise {A} (e : exn) (o : option A) : blind (or_raise e o).
Proof. by destruct o. Qed.

Lemma blind_bind {A B} (m : M A) (k : A -> M B) :
  blind m -> (forall a, blind (k a)) -> blind (m ≫= k).
Proof.
  intros Hm Hk st s. unfold mbind, M_bind. rewrite Hm.
  destruct (m st) as [[a| |e] st1]; cbn; try done.
  rewrite Hk. by destruct (k a st1).
Qed.

Lemma blind_log (e : event) : blind (log e).
Proof. done. Qed.

Lemma blind_server_recv (n : nat) : blind (server_recv n).
Proof.
  intros st s. unfold server_recv. cbn [server_sock set_client].
  by destruct (recv n (server_sock st)) as [[d|] rest].
Qed.

Lemma blind_recv_loop (fuel : nat) : forall acc, blind (recv_loop fuel acc).
Proof.
  induction fuel as [|fuel IH]; intros acc; [done|].
  cbn [recv_loop]. apply blind_bind; [apply blind_server_recv|].
  intros data. destruct (null data); [done | apply IH].
Qed.

Lemma blind_recv_until_closed : blind recv_until_closed.
Proof. intros st s. unfold recv_until_closed. apply blind_recv_loop. Qed.

Lemma blind_path_exists (name : str) : blind (path_exists name).
Proof. done. Qed.

Lemma blind_contents (name : str) : blind (contents name).
Proof.
  intros st s. unfold contents. cbn [cache set_client].
  by destruct (cache st !! name) as [[?|]|].
Qed.

Lemma blind_store (world : env) (name : str) (data : bytes) :
  blind (store world name data).
Proof.
  intros st s. unfold store. cbn [cache set_client].
  destruct (cache st !! name) as [[?|]|]; [|done|];
    by destruct (disk world name data).
Qed.

Lemma blind_answer_queued (s : sock) : blind (answer_queued s).
Proof. done. Qed.

End Blind.

(** ** Automation for the judgements *)

Create HintDb relay.
#[local] Hint Resolve emits_ret emits_return emits_raise emits_or_raise emits_log
  emits_recv_until_closed emits_path_exists emits_contents emits_store
  emits_answer_queued : relay.
#[local] Hint Resolve preserves_ret preserves_return preserves_raise
  preserves_or_raise preserves_log preserves_recv_until_closed
  preserves_path_exists preserves_contents preserves_answer_queued
  preserves_store agree_off_refl agree_off_trans agree_off_insert : relay.
#[local] Hint Resolve blind_ret blind_return blind_raise blind_or_raise blind_log
  blind_recv_until_closed blind_path_exists blind_contents blind_store
  blind_answer_queued : relay.

(** Walk through the binds and branches of a piece of handler code. *)
Ltac walk bind_lemma :=
  repeat first
    [ progress intros
    | apply bind_lemma
    | match goal with
      | |- context [bool_decide ?P] => destruct (bool_decide_reflect P)
      | |- context [if ?b then _ else _] => destruct b
      | |- context [match ?x with _ => _ end] => destruct x
      end
    | solve [eauto with relay] ].

(** ** What [relay] can do *)

Section Relay.
Variable py : runtime.
Variable world : env.
Variables method url host path : str.
Variable headers : list str.
Variable request : str.

Local Abbreviation key := (sanitize_filename url).
Local Abbreviation GET := (upper py method = lit "GET").
Local Abbreviation calls := (relay_call py method url host path headers request).

#[local] Hint Constructors relay_call : relay.

Lemma relay_calls :
  emits calls (relay py world method url host path headers request).
Proof.
  unfold relay, makedirs, read_file, client_sendall, client_close, resolve,
    connect, server_sendall, write_file, server_close.
  apply emits_bind; [eauto with relay|]; intros _.
  destruct (bool_decide_reflect (upper py method = lit "GET")) as [Hget|Hget].
  - apply emits_bind; [eauto with relay|]. intros [|].
    + walk (@emits_bind calls).
    + apply emits_bind; [walk (@emits_bind calls)|].
      intros [ip| |]; [|walk (@emits_bind calls)..].
      apply emits_bind; [walk (@emits_bind calls)|]; intros _.
      destruct (encode (outbound py method path host headers request))
        as [wire|] eqn:Hwire; cbn [or_raise];
        [apply emits_ret_bind | apply emits_raise_bind];
        walk (@emits_bind calls).
  - apply emits_ret_bind.
    apply emits_bind; [walk (@emits_bind calls)|].
    intros [ip| |]; [|walk (@emits_bind calls)..].
    apply emits_bind; [walk (@emits_bind calls)|]; intros _.
    destruct (encode (outbound py method path host headers request))
      as [wire|] eqn:Hwire; cbn [or_raise];
      [apply emits_ret_bind | apply emits_raise_bind];
      walk (@emits_bind calls).
Qed.

Lemma relay_blind :
  blind (relay py world method url host path headers request).
Proof.
  unfold relay, makedirs, read_file, client_sendall, client_close, resolve,
    connect, server_sendall, write_file, server_close.
  walk (@blind_bind).
Qed.

Lemma relay_keeps_cache :
  ~ GET ->
  preserves eq (relay py world method url host path headers request).
Proof.
  intros Hget.
  unfold relay, makedirs, read_file, client_sendall, client_close, resolve,
    connect, server_sendall, write_file, server_close.
  destruct (bool_decide_reflect (upper py method = lit "GET")); [done|].
  walk (@preserves_bind eq (@eq_trans cache_dir)).
Qed.

Lemma relay_touches_key :
  preserves (agree_off key)
    (relay py world method url host path headers request).
Proof.
  unfold relay, makedirs, read_file, client_sendall, client_close, resolve,
    connect, server_sendall, write_file, server_close.
  walk (@preserves_bind (agree_off key) (agree_off_trans key)).
Qed.

(** *** The paths through [relay] *)

Ltac unfold_calls :=
  unfold relay, makedirs, read_file, client_sendall, client_close, resolve,
    connect, server_sendall, write_file, server_close, path_exists, contents,
    store, answer_queued, log, return_, raise, or_raise, mbind, M_bind, mret,
    M_ret, then_calls, lookup_calls, cache_hit, fetched in *.

Lemma relay_hit (st : state) (content : bytes) :
  GET -> cache st !! key = Some (File content) ->
  relay py world method url host path headers request st
  = (Returned,
     then_calls [Makedirs; PathExists key; OpenRead key;
                 ClientSendall (replay content); ClientClose] st).
Proof.
  intros Hget Hfile. unfold_calls.
  rewrite (bool_decide_eq_true_2 _ Hget).
  repeat (progress (cbn; rewrite ?Hfile)).
  unfold emit. cbn. by rewrite <- !app_assoc.
Qed.

Lemma relay_unresolvable (st : state) :
  cache_hit py method url (cache st) = false -> gethostbyname world host = Gaierror ->
  relay py world method url host path headers request st
  = (Returned,
     then_calls ([Makedirs] ++ lookup_calls py method url
                 ++ [GetHostByName host; ClientSendall BAD_GATEWAY;
                     ClientClose]) st).
Proof.
  intros Hmiss Hdns. unfold_calls. 
  destruct (bool_decide (upper py method = lit "GET")); cbn in Hmiss.
  - destruct (cache st !! key) eqn:Hnone; [done|].
    repeat (progress (cbn; rewrite ?Hnone, ?Hdns)).
    unfold emit. cbn. by rewrite <- !app_assoc.
  - repeat (progress (cbn; rewrite ?Hdns)).
    unfold emit. cbn. by rewrite <- !app_assoc.
Qed.

Lemma relay_fetched (st : state) (ip : str) (wire response : bytes) :
  cache_hit py method url (cache st) = false ->
  gethostbyname world host = Resolved ip ->
  accepts (origin world ip) = true ->
  encode (outbound py method path host headers request) = Some wire ->
  takes (origin world ip) wire = true ->
  drain (replies (origin world ip) wire) = Some response ->
  exists n s',
    relay py world method url host path headers request st
    = deliver py world method url response
        (fetched py method url host st ip wire n s').
Proof.
  intros Hmiss Hdns Hacc Hwire Htakes Hdrain.
  set (before_loop :=
         set_server (replies (origin world ip) wire)
           (then_calls ([Makedirs] ++ lookup_calls py method url
                        ++ [GetHostByName host; Connect ip 80;
                            ServerSendall wire]) st)).
  destruct (recv_until_closed_spec before_loop) as (n & s' & Hloop).
  exists n, s'.
  assert (Hrun : relay py world method url host path headers request st
                 = (recv_until_closed ≫= deliver py world method url) before_loop).
  { subst before_loop. unfold deliver. unfold_calls. 
    destruct (bool_decide (upper py method = lit "GET")); cbn in Hmiss.
    - destruct (cache st !! key) eqn:Hnone; [done|].
      repeat (progress (cbn;
                        rewrite ?Hnone, ?Hdns, ?Hacc, ?Hwire, ?Htakes)).
      unfold emit, set_server. cbn. by rewrite <- !app_assoc.
    - repeat (progress (cbn; rewrite ?Hdns, ?Hacc, ?Hwire, ?Htakes)).
      unfold emit, set_server. cbn. by rewrite <- !app_assoc. }
  rewrite Hrun. unfold mbind at 1. unfold M_bind at 1. rewrite Hloop.
  subst before_loop. cbn [server_sock set_server then_calls]. rewrite Hdrain.
  unfold fetched. cbn [cache client_sock trace set_server then_calls].
  by rewrite <- !app_assoc.
Qed.

End Relay.

(** ** From [relay] to a whole session *)


Lemma serve_arrives (py : runtime) (world : env) (fs : cache_dir)
    (client : sock) (request method target protocol host path : str) :
  arrives py client request method target protocol host path ->
  serve py world (accepted fs client)
  = relay py world method (strip_slash target) host (or_root path)
      (tl (split_crlf request)) request (after_read fs client).
Proof.
  intros (data & Hrecv & Hdec & Hne & Hline & Hurl).
  unfold serve, respond, mbind, M_bind, client_recv, accepted, after_read.
  cbn [client_sock].
  destruct (recv BUFSIZE client) as [[d|] rest]; [|done].
  cbn in Hrecv. simplify_eq.
  rewrite Hdec. cbn [or_raise mret M_ret].
  destruct request as [|c r]; [done|]. cbn [null].
  destruct (split_crlf (c :: r)) as [|first_line lines] eqn:Hl;
    [by apply split_crlf_nonempty in Hl|].
  cbn [null hd tl] in *. by rewrite Hline, Hurl.
Qed.

Lemma session_arrives (py : runtime) (world : env) (fs : cache_dir)
    (client : sock) (request method target protocol host path : str) :
  arrives py client request method target protocol host path ->
  session py world fs client
  = outcome_of
      (conclude
         (relay py world method (strip_slash target) host (or_root path)
            (tl (split_crlf request)) request (after_read fs client))).
Proof.
  intros H. unfold session, handle_client. by rewrite (serve_arrives _ _ _ _ _ _ _ _ _ _ H).
Qed.

Lemma connections_app (t u : list event) :
  connections (t ++ u) = (connections t + connections u)%nat.
Proof. unfold connections. by rewrite List.filter_app, length_app. Qed.

Lemma connections_recv (n : nat) : connections (repeat ServerRecv n) = 0%nat.
Proof. induction n; [done|]. exact IHn. Qed.

Lemma to_client_app (t u : list event) :
  to_client (t ++ u) = to_client t ++ to_client u.
Proof. apply omap_app. Qed.

Lemma to_client_recv (n : nat) : to_client (repeat ServerRecv n) = [].
Proof. induction n; [done|]. exact IHn. Qed.


(** ** Whole sessions along the main paths *)

Lemma session_hit (py : runtime) (world : env) (fs : cache_dir)
    (client : sock) (request method target protocol host path : str)
    (content : bytes) :
  arrives py client request method target protocol host path ->
  upper py method = lit "GET" ->
  fs !! sanitize_filename (strip_slash target) = Some (File content) ->
  session py world fs client
  = ([ClientRecv; Makedirs; PathExists (sanitize_filename (strip_slash target));
      OpenRead (sanitize_filename (strip_slash target));
      ClientSendall (replay content); ClientClose; ClientClose], fs).
Proof.
  intros Harr Hget Hfile.
  rewrite (session_arrives _ _ _ _ _ _ _ _ _ _ Harr).
  rewrite (relay_hit _ _ _ _ _ _ _ _ _ content Hget) by exact Hfile.
  reflexivity.
Qed.

Lemma session_fetched (py : runtime) (world : env) (fs : cache_dir)
    (client : sock) (request method target protocol host path : str)
    (ip : str) (wire response : bytes) :
  arrives py client request method target protocol host path ->
  cache_hit py method (strip_slash target) fs = false ->
  gethostbyname world host = Resolved ip ->
  accepts (origin world ip) = true ->
  encode (outbound py method (or_root path) host (tl (split_crlf request))
            request) = Some wire ->
  takes (origin world ip) wire = true ->
  drain (replies (origin world ip) wire) = Some response ->
  exists n s',
    session py world fs client
    = outcome_of
        (conclude
           (deliver py world method (strip_slash target) response
              (fetched py method (strip_slash target) host
                 (after_read fs client) ip wire n s'))).
Proof.
  intros Harr Hmiss Hdns Hacc Hwire Htakes Hdrain.
  destruct (relay_fetched py world _ _ _ _ _ _ (after_read fs client)
              ip wire response Hmiss Hdns Hacc Hwire Htakes Hdrain)
    as (n & s' & Hrun).
  exists n, s'.
  by rewrite (session_arrives _ _ _ _ _ _ _ _ _ _ Harr), Hrun.
Qed.

Lemma get_miss (py : runtime) (method url : str) (fs : cache_dir) :
  fs !! sanitize_filename url = None -> cache_hit py method url fs = false.
Proof. intros H. unfold cache_hit. rewrite H. apply andb_false_r. Qed.

Lemma session_stored (py : runtime) (world : env) (fs : cache_dir)
    (client : sock) (request method target protocol host path : str)
    (ip : str) (wire response : bytes) :
  arrives py client request method target protocol host path ->
  upper py method = lit "GET" ->
  fs !! sanitize_filename (strip_slash target) = None ->
  gethostbyname world host = Resolved ip ->
  accepts (origin world ip) = true ->
  encode (outbound py method (or_root path) host (tl (split_crlf request))
            request) = Some wire ->
  takes (origin world ip) wire = true ->
  drain (replies (origin world ip) wire) = Some response ->
  disk world (sanitize_filename (strip_slash target)) response = Written ->
  exists n,
    session py world fs client
    = ([ClientRecv; Makedirs;
        PathExists (sanitize_filename (strip_slash target));
        GetHostByName host; Connect ip 80; ServerSendall wire]
       ++ repeat ServerRecv n
       ++ [OpenWrite (sanitize_filename (strip_slash target)) response;
           ClientSendall response; ServerClose; ClientClose],
       <[sanitize_filename (strip_slash target) := File response]> fs).
Proof.
  intros Harr Hget Hnone Hdns Hacc Hwire Htakes Hdrain Hdisk.
  destruct (session_fetched py world fs client _ _ _ _ _ _ ip wire response
              Harr (get_miss _ _ _ _ Hnone) Hdns Hacc Hwire Htakes Hdrain)
    as (n & s' & ->).
  exists n. unfold deliver, fetched, lookup_calls.
  rewrite (bool_decide_eq_true_2 _ Hget).
  unfold write_file, store, client_sendall, server_close, log, mbind,
    M_bind, mret, M_ret, outcome_of, conclude, after_read, accepted, emit.
  cbn. rewrite Hnone, Hdisk. cbn.
  f_equal. f_equal. by rewrite <- !app_assoc.
Qed.

Lemma session_write_failed (py : runtime) (world : env) (fs : cache_dir)
    (client : sock) (request method target protocol host path : str)
    (ip : str) (wire response : bytes) :
  arrives py client request method target protocol host path ->
  upper py method = lit "GET" ->
  fs !! sanitize_filename (strip_slash target) = None ->
  gethostbyname world host = Resolved ip ->
  accepts (origin world ip) = true ->
  encode (outbound py method (or_root path) host (tl (split_crlf request))
            request) = Some wire ->
  takes (origin world ip) wire = true ->
  drain (replies (origin world ip) wire) = Some response ->
  disk world (sanitize_filename (strip_slash target)) response <> Written ->
  exists n,
    fst (session py world fs client)
    = [ClientRecv; Makedirs;
       PathExists (sanitize_filename (strip_slash target));
       GetHostByName host; Connect ip 80; ServerSendall wire]
      ++ repeat ServerRecv n
      ++ [OpenWrite (sanitize_filename (strip_slash target)) response;
          ClientSendall INTERNAL_ERROR; ClientClose].
Proof.
  intros Harr Hget Hnone Hdns Hacc Hwire Htakes Hdrain Hdisk.
  destruct (session_fetched py world fs client _ _ _ _ _ _ ip wire response
              Harr (get_miss _ _ _ _ Hnone) Hdns Hacc Hwire Htakes Hdrain)
    as (n & s' & ->).
  exists n. unfold deliver, fetched, lookup_calls.
  rewrite (bool_decide_eq_true_2 _ Hget).
  unfold write_file, store, client_sendall, server_close, log, mbind,
    M_bind, mret, M_ret, outcome_of, conclude, after_read, accepted, emit.
  cbn. rewrite Hnone.
  destruct (disk world (sanitize_filename (strip_slash target)) response);
    [done| |]; cbn; by rewrite <- !app_assoc.
Qed.

Lemma session_calls (py : runtime) (world : env) (fs : cache_dir)
    (client : sock) (request method target protocol host path : str) :
  arrives py client request method target protocol host path ->
  exists t,
    fst (session py world fs client) = ClientRecv :: t
    /\ Forall (relay_call py method (strip_slash target) host (or_root path)
                 (tl (split_crlf request)) request) t.
Proof.
  intros Harr. rewrite (session_arrives _ _ _ _ _ _ _ _ _ _ Harr).
  destruct (relay_calls py world method (strip_slash target) host
              (or_root path) (tl (split_crlf request)) request
              (after_read fs client)) as (t & Ht & Hall).
  unfold outcome_of, conclude. cbn [fst].
  destruct (relay _ _ _ _ _ _ _ _ _) as [[[]| |e] st]; cbn [fst snd] in *.
  - exists (t ++ [ClientClose]). cbn. rewrite Ht. split; [done|].
    apply Forall_app. split; [done|]. repeat constructor.
  - exists (t ++ [ClientClose]). cbn. rewrite Ht. split; [done|].
    apply Forall_app. split; [done|]. repeat constructor.
  - exists (t ++ [ClientSendall INTERNAL_ERROR; ClientClose]). cbn.
    rewrite Ht. split; [by rewrite <- app_assoc|].
    apply Forall_app. split; [done|]. repeat constructor.
Qed.

Lemma session_malformed (py : runtime) (world : env)
    (fs : cache_dir) (client : sock) (data : bytes) (request : str) :
  fst (recv BUFSIZE client) = Some data ->
  decode data = Some request ->
  request <> [] ->
  length (split (hd [] (split_crlf request))) <> 3%nat ->
  session py world fs client
  = ([ClientRecv; ClientSendall BAD_REQUEST; ClientClose; ClientClose], fs).
Proof.
  intros Hrecv Hdec Hne Hline.
  unfold session, handle_client, serve, respond, mbind, M_bind, client_recv,
    accepted.
  cbn [client_sock].
  destruct (recv BUFSIZE client) as [[d|] rest]; [|done].
  cbn in Hrecv. simplify_eq.
  rewrite Hdec. cbn [or_raise mret M_ret].
  destruct request as [|c r]; [done|]. cbn [null].
  destruct (split_crlf (c :: r)) as [|first_line lines] eqn:Hl;
    [by apply split_crlf_nonempty in Hl|].
  cbn [null hd tl] in *.
  by destruct (split first_line) as [|m [|u [|p [|x l]]]].
Qed.

(** ** The claims *)



(** C3, as the code has it.  A request that is not empty, decodes as UTF-8
    and whose first line does not split into exactly three tokens is
    answered with the bytes [HTTP/1.1 400 Bad Request\r\n\r\n] and nothing
    else: no directory is made, no cache file looked up or written, no
    resolver or origin call, and the client socket is closed. *)
Theorem malformed_request_gets_400 (py : runtime) (world : env)
    (fs : cache_dir) (client : sock) (data : bytes) (request : str) :
  fst (recv BUFSIZE client) = Some data ->
  decode data = Some request ->
  request <> [] ->
  length (split (hd [] (split_crlf request))) <> 3%nat ->
  session py world fs client
  = ([ClientRecv;
      ClientSendall (blit "HTTP/1.1 400 Bad Request" ++ bcrlf ++ bcrlf);
      ClientClose; ClientClose], fs).
Proof. apply session_malformed. Qed.

(** The request line [GET] alone. *)
Lemma malformed_request_gets_400_witness :
  session cpython Scenario.healthy ∅ [Data (blit "GET" ++ bcrlf)]
  = ([ClientRecv;
      ClientSendall (blit "HTTP/1.1 400 Bad Request" ++ bcrlf ++ bcrlf);
      ClientClose; ClientClose], ∅).
Proof.
  apply (malformed_request_gets_400 cpython Scenario.healthy ∅
           [Data (blit "GET" ++ bcrlf)] (blit "GET" ++ bcrlf)
           (lit "GET" ++ crlf)).
  - reflexivity.
  - reflexivity.
  - discriminate.
  - vm_compute. lia.
Defined.

(** C3, as stated, fails in two ways.  A client that closes without
    sending anything has sent a first line with no token on it, and is
    answered with nothing (lines 31-33).  A request that is not UTF-8 has
    no line that could split into three tokens, and is answered with
    [HTTP/1.1 500 Internal Server Error\r\n\r\n] by the
    [except Exception] clause. *)
Lemma malformed_request_without_400 :
  (decode [] = Some []
   /\ split (hd [] (split_crlf [])) = []
   /\ session cpython Scenario.healthy ∅ []
      = ([ClientRecv; ClientClose; ClientClose], ∅))
  /\ (decode (blit "GET " ++ [xff] ++ bcrlf ++ bcrlf) = None
      /\ session cpython Scenario.healthy ∅
           [Data (blit "GET " ++ [xff] ++ bcrlf ++ bcrlf)]
         = ([ClientRecv;
             ClientSendall
               (blit "HTTP/1.1 500 Internal Server Error" ++ bcrlf ++ bcrlf);
             ClientClose], ∅)).
Proof. repeat split; vm_compute; reflexivity. Qed.

(** C4, as the code has it.  When a GET misses, the origin's answer is
    read to the end and writing the cache file fails, delivery is aborted:
    the cache write is the last thing attempted, and all the client is
    sent is the bytes [HTTP/1.1 500 Internal Server Error\r\n\r\n]. *)
Theorem cache_write_failure_aborts_delivery (py : runtime) (world : env)
    (fs : cache_dir) (client : sock)
    (request method target protocol host path : str)
    (ip : str) (wire response : bytes) :
  arrives py client request method target protocol host path ->
  upper py method = lit "GET" ->
  fs !! sanitize_filename (strip_slash target) = None ->
  gethostbyname world host = Resolved ip ->
  accepts (origin world ip) = true ->
  encode (outbound py method (or_root path) host (tl (split_crlf request))
            request) = Some wire ->
  takes (origin world ip) wire = true ->
  drain (replies (origin world ip) wire) = Some response ->
  disk world (sanitize_filename (strip_slash target)) response <> Written ->
  let status :=
    blit "HTTP/1.1 500 Internal Server Error" ++ bcrlf ++ bcrlf in
  to_client (fst (session py world fs client)) = [status]
  /\ exists t,
       fst (session py world fs client)
       = t ++ [OpenWrite (sanitize_filename (strip_slash target)) response;
               ClientSendall status; ClientClose].
Proof.
  intros Harr Hget Hnone Hdns Hacc Hwire Htakes Hdrain Hdisk status.
  destruct (session_write_failed py world fs client _ _ _ _ _ _ ip wire
              response Harr Hget Hnone Hdns Hacc Hwire Htakes Hdrain Hdisk)
    as (n & ->).
  split.
  - rewrite !to_client_app, to_client_recv. done.
  - eexists. rewrite !app_assoc. reflexivity.
Qed.

Lemma cache_write_failure_aborts_delivery_witness :
  to_client
    (fst (session cpython (Scenario.internet OpenFailed) ∅
            [Data Scenario.get_request]))
  = [blit "HTTP/1.1 500 Internal Server Error" ++ bcrlf ++ bcrlf].
Proof.
  refine (proj1 (cache_write_failure_aborts_delivery cpython
                   (Scenario.internet OpenFailed) ∅
                   [Data Scenario.get_request] Scenario.get_text (lit "GET")
                   (lit "http://example.test/a.html") (lit "HTTP/1.1")
                   (lit "example.test") (lit "/a.html")
                   Scenario.address Scenario.get_wire Scenario.reply
                   _ _ _ _ _ _ _ _ _)).
  - exists Scenario.get_request. repeat split; try (vm_compute; reflexivity).
    discriminate.
  - reflexivity.
  - apply lookup_empty.
  - vm_compute; reflexivity.
  - reflexivity.
  - vm_compute; reflexivity.
  - reflexivity.
  - reflexivity.
  - discriminate.
Defined.

(** C4, as stated, fails: the origin's answer was read in full, the disk
    refuses the cache file, and the client is sent
    [HTTP/1.1 500 Internal Server Error\r\n\r\n] instead of the answer. *)
Lemma cache_write_failure_loses_response :
  let world := Scenario.internet OpenFailed in
  let run := session cpython world ∅ [Data Scenario.get_request] in
  drain (replies (origin world Scenario.address) Scenario.get_wire)
  = Some Scenario.reply
  /\ to_origin (fst run) = [Scenario.get_wire]
  /\ to_client (fst run)
     = [blit "HTTP/1.1 500 Internal Server Error" ++ bcrlf ++ bcrlf]
  /\ ~ In (ClientSendall Scenario.reply) (fst run).
Proof.
  repeat split; try (vm_compute; reflexivity).
  vm_compute. intros H. repeat (destruct H as [H|H]; [discriminate H|]).
  exact H.
Qed.

(** C7, as the code has it.  A request that parses, is not answered from
    the cache, and for whose host [gethostbyname] raises [socket.gaierror]
    is answered with the bytes [HTTP/1.1 502 Bad Gateway\r\n\r\n]: the
    resolver is asked once, no connection is opened, nothing is written to
    the cache, and the client socket is closed. *)
Theorem unresolvable_host_gets_502 (py : runtime) (world : env)
    (fs : cache_dir) (client : sock)
    (request method target protocol host path : str) :
  arrives py client request method target protocol host path ->
  cache_hit py method (strip_slash target) fs = false ->
  gethostbyname world host = Gaierror ->
  session py world fs client
  = ([ClientRecv; Makedirs] ++ lookup_calls py method (strip_slash target)
     ++ [GetHostByName host;
         ClientSendall (blit "HTTP/1.1 502 Bad Gateway" ++ bcrlf ++ bcrlf);
         ClientClose; ClientClose], fs).
Proof.
  intros Harr Hmiss Hdns.
  rewrite (session_arrives _ _ _ _ _ _ _ _ _ _ Harr).
  rewrite relay_unresolvable by done.
  unfold outcome_of, conclude, then_calls, after_read, accepted, emit.
  cbn. f_equal. f_equal. f_equal. by rewrite <- !app_assoc.
Qed.

Lemma unresolvable_host_gets_502_witness :
  session cpython Scenario.dead ∅ [Data Scenario.get_request]
  = ([ClientRecv; Makedirs; PathExists (lit "http___example.test_a.html");
      GetHostByName (lit "example.test");
      ClientSendall (blit "HTTP/1.1 502 Bad Gateway" ++ bcrlf ++ bcrlf);
      ClientClose; ClientClose], ∅).
Proof.
  apply (unresolvable_host_gets_502 cpython Scenario.dead ∅
           [Data Scenario.get_request] Scenario.get_text (lit "GET")
           (lit "http://example.test/a.html") (lit "HTTP/1.1")
           (lit "example.test") (lit "/a.html")).
  - exists Scenario.get_request. repeat split; try (vm_compute; reflexivity).
    discriminate.
  - reflexivity.
  - reflexivity.
Defined.

(** C7, as stated, fails: not every host whose resolution fails is
    answered with the 502.  Only [socket.gaierror] is caught at line 104.
    For the host [a..test], which has an empty label, [gethostbyname]
    raises [UnicodeError] while encoding the name for the resolver; that
    goes to the [except Exception] clause, and the client is sent
    [HTTP/1.1 500 Internal Server Error\r\n\r\n]. *)
Lemma unresolvable_host_without_502 :
  let world :=
    {| gethostbyname := fun name =>
         if bool_decide (name = lit "a..test") then ResolverError
         else Gaierror;
       origin := fun _ => Scenario.server;
       disk := fun _ _ => Written |} in
  let request := blit "GET http://a..test/ HTTP/1.1" ++ bcrlf ++ bcrlf in
  let run := session cpython world ∅ [Data request] in
  run
  = ([ClientRecv; Makedirs; PathExists (lit "http___a..test_");
      GetHostByName (lit "a..test");
      ClientSendall
        (blit "HTTP/1.1 500 Internal Server Error" ++ bcrlf ++ bcrlf);
      ClientClose], ∅)
  /\ ~ In (ClientSendall (blit "HTTP/1.1 502 Bad Gateway" ++ bcrlf ++ bcrlf))
         (fst run).
Proof.
  split; [vm_compute; reflexivity|].
  vm_compute. intros H. repeat (destruct H as [H|H]; [discriminate H|]).
  exact H.
Qed.

(** ** Every session *)

(** A session either gets as far as [relay], or it only ever talks to the
    client and leaves the cache alone. *)
Lemma session_cases (py : runtime) (world : env) (fs : cache_dir)
    (client : sock) :
  (exists request method target protocol host path,
      arrives py client request method target protocol host path)
  \/ (snd (session py world fs client) = fs
      /\ Forall quiet (fst (session py world fs client))).
Proof.
  destruct (fst (recv BUFSIZE client)) as [data|] eqn:Hrecv.
  2: { right. unfold session, handle_client, serve, mbind, M_bind,
         client_recv, accepted. cbn [client_sock].
       destruct (recv BUFSIZE client) as [[d|] rest]; [done|].
       cbn. split; [done|]. repeat constructor. }
  destruct (decode data) as [request|] eqn:Hdec.
  2: { right. unfold session, handle_client, serve, respond, mbind, M_bind,
         client_recv, accepted. cbn [client_sock].
       destruct (recv BUFSIZE client) as [[d|] rest]; [|done].
       cbn in Hrecv. simplify_eq. rewrite Hdec.
       cbn. split; [done|]. repeat constructor. }
  destruct request as [|c r].
  { right. unfold session, handle_client, serve, respond, mbind, M_bind,
      client_recv, accepted. cbn [client_sock].
    destruct (recv BUFSIZE client) as [[d|] rest]; [|done].
    cbn in Hrecv. simplify_eq. rewrite Hdec.
    cbn. split; [done|]. repeat constructor. }
  destruct (decide (length (split (hd [] (split_crlf (c :: r)))) = 3%nat))
    as [Hthree|Hthree].
  2: { right.
       rewrite (session_malformed py world fs client data (c :: r))
         by done.
       split; [done|]. repeat constructor. }
  destruct (split (hd [] (split_crlf (c :: r))))
    as [|method [|target [|protocol [|x l]]]] eqn:Hline; try done.
  destruct (urlparse py (with_scheme (strip_slash target)))
    as [[host path]|] eqn:Hurl.
  - left. exists (c :: r), method, target, protocol, host, path, data.
    done.
  - right. unfold session, handle_client, serve, respond, mbind, M_bind,
      client_recv, accepted. cbn [client_sock].
    destruct (recv BUFSIZE client) as [[d|] rest]; [|done].
    cbn in Hrecv. simplify_eq. rewrite Hdec. cbn [or_raise mret M_ret null].
    destruct (split_crlf (c :: r)) as [|first_line lines] eqn:Hl;
      [by apply split_crlf_nonempty in Hl|].
    cbn [null hd tl] in *. rewrite Hline, Hurl.
    cbn. split; [done|]. repeat constructor.
Qed.

Lemma arrives_asks_get (py : runtime) (client : sock)
    (request method target protocol host path : str) :
  arrives py client request method target protocol host path ->
  asks_get py client = bool_decide (upper py method = lit "GET").
Proof.
  intros (data & Hrecv & Hdec & _ & Hline & _).
  unfold asks_get. by rewrite Hrecv, Hdec, Hline.
Qed.

Lemma session_cache (py : runtime) (world : env) (fs : cache_dir)
    (client : sock) (request method target protocol host path : str) :
  arrives py client request method target protocol host path ->
  snd (session py world fs client)
  = cache (snd (relay py world method (strip_slash target) host
                  (or_root path) (tl (split_crlf request)) request
                  (after_read fs client))).
Proof.
  intros Harr. rewrite (session_arrives _ _ _ _ _ _ _ _ _ _ Harr).
  unfold outcome_of, conclude. cbn [snd].
  by destruct (relay _ _ _ _ _ _ _ _ _) as [[[]| |e] st].
Qed.

Lemma encode_app (a b : str) (w : bytes) :
  encode (a ++ b) = Some w ->
  exists wa wb, encode a = Some wa /\ encode b = Some wb /\ w = wa ++ wb.
Proof.
  revert w. induction a as [|c a IH]; intros w H.
  - exists [], w. done.
  - cbn [app encode] in H |- *.
    destruct (encode_char c) as [bc|]; [|done].
    destruct (encode (a ++ b)) as [wab|] eqn:Hab; [|done].
    destruct (IH wab eq_refl) as (wa & wb & -> & -> & ->).
    simplify_eq. exists (bc ++ wa), wb. by rewrite app_assoc.
Qed.

Lemma forward_from (py : runtime) (headers : list str) (acc : str) :
  fold_left
    (fun forward_headers header =>
       if dropped py header then forward_headers
       else forward_headers ++ header ++ crlf)
    headers acc
  = acc ++ concat (map (fun header => header ++ crlf)
                     (List.filter (fun header => negb (dropped py header))
                        headers)).
Proof.
  revert acc. induction headers as [|h hs IH]; intros acc; cbn.
  - by rewrite app_nil_r.
  - rewrite IH. destruct (dropped py h); cbn; [done|].
    by rewrite <- !app_assoc.
Qed.

(** C2, as the code has it.  The one cache file a session looks up, reads
    or writes is named by [sanitize_filename] applied to the request
    target after one leading slash has been removed from it, and no other
    entry of the cache directory changes. *)
Theorem cache_key_from_stripped_target (py : runtime) (world : env)
    (fs : cache_dir) (client : sock)
    (request method target protocol host path : str) :
  arrives py client request method target protocol host path ->
  let key := sanitize_filename (strip_slash target) in
  (forall e name,
      In e (fst (session py world fs client)) ->
      cache_file_of e = Some name -> name = key)
  /\ (forall name,
         name <> key -> snd (session py world fs client) !! name = fs !! name).
Proof.
  intros Harr key. split.
  - intros e name Hin Hname.
    destruct (session_calls py world fs client _ _ _ _ _ _ Harr)
      as (t & Ht & Hall).
    rewrite Ht in Hin. destruct Hin as [<-|Hin]; [done|].
    rewrite Forall_forall in Hall. apply list_elem_of_In in Hin.
    specialize (Hall e Hin).
    destruct Hall; cbn in Hname; by simplify_eq.
  - intros name Hne. rewrite (session_cache _ _ _ _ _ _ _ _ _ _ Harr).
    by apply (relay_touches_key py world method (strip_slash target) host
                (or_root path) (tl (split_crlf request)) request
                (after_read fs client)).
Qed.

Lemma cache_key_from_stripped_target_witness :
  let run := session cpython Scenario.healthy ∅ [Data Scenario.get_request] in
  (forall e name,
      In e (fst run) -> cache_file_of e = Some name ->
      name = lit "http___example.test_a.html")
  /\ (forall name,
         name <> lit "http___example.test_a.html" -> snd run !! name = None).
Proof.
  intros run.
  assert (Harr : arrives cpython [Data Scenario.get_request]
                   Scenario.get_text (lit "GET")
                   (lit "http://example.test/a.html") (lit "HTTP/1.1")
                   (lit "example.test") (lit "/a.html")).
  { exists Scenario.get_request. repeat split; try (vm_compute; reflexivity).
    discriminate. }
  exact (cache_key_from_stripped_target cpython Scenario.healthy ∅ _ _ _ _ _
           _ _ Harr).
Defined.

(** C2, as stated, fails on a target with a leading slash: the cache file
    is named after the target without it. *)
Lemma cache_key_drops_leading_slash :
  let data :=
    blit "GET /http://example.test/a.html HTTP/1.1" ++ bcrlf ++ bcrlf in
  let run := session cpython Scenario.healthy ∅ [Data data] in
  (exists request protocol,
      decode data = Some request
      /\ split (hd [] (split_crlf request))
         = [lit "GET"; lit "/http://example.test/a.html"; protocol])
  /\ sanitize_filename (lit "/http://example.test/a.html")
     = lit "_http___example.test_a.html"
  /\ omap cache_file_of (fst run)
     = [lit "http___example.test_a.html"; lit "http___example.test_a.html"]
  /\ snd run = {[ lit "http___example.test_a.html" := File Scenario.reply ]}.
Proof.
  repeat split; try (vm_compute; reflexivity).
  eexists _, _. split; vm_compute; reflexivity.
Qed.

Lemma session_sent (py : runtime) (world : env) (fs : cache_dir)
    (client : sock) (request method target protocol host path : str)
    (wire : bytes) :
  arrives py client request method target protocol host path ->
  In (ServerSendall wire) (fst (session py world fs client)) ->
  encode (outbound py method (or_root path) host (tl (split_crlf request))
            request) = Some wire.
Proof.
  intros Harr Hin.
  destruct (session_calls py world fs client _ _ _ _ _ _ Harr)
    as (t & Ht & Hall).
  rewrite Ht in Hin. destruct Hin as [?|Hin]; [done|].
  rewrite Forall_forall in Hall. apply list_elem_of_In in Hin.
  specialize (Hall _ Hin). by inversion Hall.
Qed.

Lemma outbound_starts (py : runtime) (method path host : str)
    (headers : list str) (request : str) :
  exists rest,
    outbound py method path host headers request
    = (method ++ lit " " ++ path ++ lit " HTTP/1.1" ++ crlf) ++ rest.
Proof. eexists. unfold outbound. cbv zeta. symmetry. apply app_assoc. Qed.

(** C5, as the code has it.  Whatever is sent to the origin starts with
    the request line [<method> <path> HTTP/1.1]: the version is fixed, the
    one on the client's request line is not used. *)
Theorem outbound_request_line_is_http11 (py : runtime) (world : env)
    (fs : cache_dir) (client : sock)
    (request method target protocol host path : str) (wire : bytes) :
  arrives py client request method target protocol host path ->
  In (ServerSendall wire) (fst (session py world fs client)) ->
  exists line rest,
    encode (method ++ lit " " ++ or_root path ++ lit " HTTP/1.1" ++ crlf)
    = Some line
    /\ wire = line ++ rest.
Proof.
  intros Harr Hin.
  pose proof (session_sent _ _ _ _ _ _ _ _ _ _ _ Harr Hin) as Hwire.
  destruct (outbound_starts py method (or_root path) host
              (tl (split_crlf request)) request) as (tail & Htail).
  rewrite Htail in Hwire.
  destruct (encode_app _ _ _ Hwire) as (line & rest & Hline & _ & ->).
  by exists line, rest.
Qed.

Lemma outbound_request_line_is_http11_witness :
  exists line rest,
    encode (lit "GET" ++ lit " " ++ lit "/a.html" ++ lit " HTTP/1.1" ++ crlf)
    = Some line
    /\ Scenario.get_wire = line ++ rest.
Proof.
  apply (outbound_request_line_is_http11 cpython Scenario.healthy ∅
           [Data Scenario.get_request] Scenario.get_text (lit "GET")
           (lit "http://example.test/a.html") (lit "HTTP/1.1")
           (lit "example.test") (lit "/a.html") Scenario.get_wire).
  - exists Scenario.get_request. repeat split; try (vm_compute; reflexivity).
    discriminate.
  - vm_compute. tauto.
Defined.

(** C5, as stated, fails for a client that speaks HTTP/1.0: the request
    line sent to the origin ends in [HTTP/1.1]. *)
Lemma outbound_request_line_ignores_client_version :
  let data := blit "GET http://example.test/a.html HTTP/1.0" ++ bcrlf ++ bcrlf in
  let run := session cpython Scenario.healthy ∅ [Data data] in
  (exists request,
      decode data = Some request
      /\ split (hd [] (split_crlf request))
         = [lit "GET"; lit "http://example.test/a.html"; lit "HTTP/1.0"])
  /\ (exists wire,
         to_origin (fst run) = [wire]
         /\ bstartswith (blit "GET /a.html HTTP/1.1" ++ bcrlf) wire = true
         /\ bstartswith (blit "GET /a.html HTTP/1.0" ++ bcrlf) wire = false).
Proof.
  split.
  - eexists. split; vm_compute; reflexivity.
  - eexists. repeat split; vm_compute; reflexivity.
Qed.

(** C6.  Whatever is sent to the origin is the request line, then every
    line of the request after the first, in order and unchanged, except
    those whose lower-cased text starts with [proxy-connection] or
    [connection], then [Host: <host>], [Connection: close] and
    [User-Agent: PythonProxy/1.0], then the empty line (and the body of a
    POST). *)
Theorem headers_forwarded_except_connection (py : runtime) (world : env)
    (fs : cache_dir) (client : sock)
    (request method target protocol host path : str) (wire : bytes) :
  arrives py client request method target protocol host path ->
  In (ServerSendall wire) (fst (session py world fs client)) ->
  let headers := tl (split_crlf request) in
  let kept :=
    List.filter
      (fun header =>
         negb (startswith (lit "proxy-connection") (lower py header)
               || startswith (lit "connection") (lower py header)))
      headers in
  encode
    ((method ++ lit " " ++ or_root path ++ lit " HTTP/1.1" ++ crlf)
     ++ concat (map (fun header => header ++ crlf) kept)
     ++ (lit "Host: " ++ host ++ crlf)
     ++ (lit "Connection: close" ++ crlf)
     ++ (lit "User-Agent: PythonProxy/1.0" ++ crlf)
     ++ crlf
     ++ post_body py method request)
  = Some wire.
Proof.
  intros Harr Hin headers kept.
  pose proof (session_sent _ _ _ _ _ _ _ _ _ _ _ Harr Hin) as Hwire.
  unfold outbound, forward in Hwire. cbv zeta in Hwire.
  rewrite forward_from in Hwire. cbn [app] in Hwire.
  rewrite <- Hwire. f_equal. subst kept headers. unfold dropped.
  by rewrite <- !app_assoc.
Qed.

(** A POST with a [Connection] and a [Proxy-Connection] header among
    others: both are dropped, the others kept in order. *)
Lemma headers_forwarded_except_connection_witness :
  to_origin
    (fst (session cpython Scenario.healthy ∅ [Data Scenario.post_request]))
  = [Scenario.post_wire]
  /\ List.filter
       (fun header =>
          negb (startswith (lit "proxy-connection") (ascii_lower header)
                || startswith (lit "connection") (ascii_lower header)))
       (tl (split_crlf Scenario.post_text))
     = [lit "Accept: */*"; lit "X-Last: 1"; []; lit "a=1"]
  /\ encode
       ((lit "POST" ++ lit " " ++ or_root (lit "/form") ++ lit " HTTP/1.1"
         ++ crlf)
        ++ concat
             (map (fun header => header ++ crlf)
                (List.filter
                   (fun header =>
                      negb (startswith (lit "proxy-connection")
                              (lower cpython header)
                            || startswith (lit "connection")
                                 (lower cpython header)))
                   (tl (split_crlf Scenario.post_text))))
        ++ (lit "Host: " ++ lit "example.test" ++ crlf)
        ++ (lit "Connection: close" ++ crlf)
        ++ (lit "User-Agent: PythonProxy/1.0" ++ crlf)
        ++ crlf
        ++ post_body cpython (lit "POST") Scenario.post_text)
     = Some Scenario.post_wire.
Proof.
  split; [vm_compute; reflexivity|]. split; [vm_compute; reflexivity|].
  apply (headers_forwarded_except_connection cpython Scenario.healthy ∅
           [Data Scenario.post_request] Scenario.post_text (lit "POST")
           (lit "http://example.test/form") (lit "HTTP/1.1")
           (lit "example.test") (lit "/form") Scenario.post_wire).
  - exists Scenario.post_request.
    repeat split; try (vm_compute; reflexivity). discriminate.
  - vm_compute. tauto.
Defined.

Lemma session_non_get (py : runtime) (world : env) (fs : cache_dir)
    (client : sock) :
  asks_get py client = false ->
  snd (session py world fs client) = fs
  /\ forall name data, ~ In (OpenWrite name data) (fst (session py world fs client)).
Proof.
  intros Hget.
  destruct (session_cases py world fs client)
    as [(request & method & target & protocol & host & path & Harr)
       | [Hfs Hquiet]].
  - rewrite (arrives_asks_get _ _ _ _ _ _ _ _ Harr) in Hget.
    apply bool_decide_eq_false_1 in Hget. split.
    + rewrite (session_cache _ _ _ _ _ _ _ _ _ _ Harr).
      symmetry.
      by apply (relay_keeps_cache py world method (strip_slash target) host
                  (or_root path) (tl (split_crlf request)) request Hget
                  (after_read fs client)).
    + intros name data Hin.
      destruct (session_calls py world fs client _ _ _ _ _ _ Harr)
        as (t & Ht & Hall).
      rewrite Ht in Hin. destruct Hin as [?|Hin]; [done|].
      rewrite Forall_forall in Hall. apply list_elem_of_In in Hin.
      specialize (Hall _ Hin). by inversion Hall.
  - split; [done|]. intros name data Hin.
    rewrite Forall_forall in Hquiet. apply list_elem_of_In in Hin.
    exact (Hquiet _ Hin).
Qed.

(** C8.  A session whose request line does not carry GET as its method
    never opens a cache file for writing and leaves the cache directory as
    it was, whatever the origin answers.  So after any number of such
    sessions the directory is the one they started from, and a GET that
    would have missed before them still misses. *)
Theorem non_get_never_cached (py : runtime) (sessions : list (env * sock))
    (fs : cache_dir) :
  Forall (fun s => asks_get py (snd s) = false) sessions ->
  Forall (fun s =>
            forall fs' name data,
              ~ In (OpenWrite name data) (fst (session py (fst s) fs' (snd s))))
    sessions
  /\ serve_all py sessions fs = fs
  /\ forall method url,
       cache_hit py method url fs = false ->
       cache_hit py method url (serve_all py sessions fs) = false.
Proof.
  intros Hall. split; [|assert (Hsame : serve_all py sessions fs = fs)].
  - eapply Forall_impl; [exact Hall|]. intros [world client] Hget fs'.
    by apply session_non_get.
  - unfold serve_all. revert fs.
    induction Hall as [|[world client] rest Hget _ IH]; intros fs; [done|].
    cbn [fold_left fst snd] in *.
    rewrite (proj1 (session_non_get py world fs client Hget)). apply IH.
  - split; [done|]. by rewrite Hsame.
Qed.

(** Three POSTs to the scenario's URL, then the cache is still empty. *)
Lemma non_get_never_cached_witness :
  let post : sock :=
    [Data (blit "POST http://example.test/a.html HTTP/1.1" ++ bcrlf ++ bcrlf
           ++ blit "x=1")] in
  let posts := repeat (Scenario.healthy, post) 3 in
  serve_all cpython posts ∅ = ∅
  /\ cache_hit cpython (lit "GET") (lit "http://example.test/a.html")
       (serve_all cpython posts ∅) = false.
Proof.
  intros post posts.
  destruct (non_get_never_cached cpython posts ∅) as (_ & Hsame & Hmiss).
  - repeat constructor.
  - split; [exact Hsame|]. by apply Hmiss.
Defined.

(** C9, as the code has it.  For the request
    [GET http://example.test/a.html HTTP/1.1] with its [Host] header,
    against an origin whose answer reads as
    [HTTP/1.0 200 OK\r\n\r\n<html>hi</html>]: the first session connects to
    the origin, stores the answer under [http___example.test_a.html] (the
    colon is replaced like the slashes) and sends it to the client; the
    second session sends the same bytes from that file without any
    resolver or origin call. *)
Theorem example_scenario (world world' : env) (ip : str) :
  let key := lit "http___example.test_a.html" in
  gethostbyname world (lit "example.test") = Resolved ip ->
  accepts (origin world ip) = true ->
  takes (origin world ip) Scenario.get_wire = true ->
  drain (replies (origin world ip) Scenario.get_wire) = Some Scenario.reply ->
  disk world key Scenario.reply = Written ->
  let first := session cpython world ∅ [Data Scenario.get_request] in
  let second :=
    session cpython world' (snd first) [Data Scenario.get_request] in
  connections (fst first) = 1%nat
  /\ In (OpenWrite key Scenario.reply) (fst first)
  /\ to_client (fst first) = [Scenario.reply]
  /\ snd first = {[ key := File Scenario.reply ]}
  /\ second
     = ([ClientRecv; Makedirs; PathExists key; OpenRead key;
         ClientSendall Scenario.reply; ClientClose; ClientClose],
        {[ key := File Scenario.reply ]}).
Proof.
  intros key Hdns Hacc Htakes Hdrain Hdisk.
  assert (Harr : arrives cpython [Data Scenario.get_request]
                   Scenario.get_text (lit "GET")
                   (lit "http://example.test/a.html") (lit "HTTP/1.1")
                   (lit "example.test") (lit "/a.html")).
  { exists Scenario.get_request. repeat split; try (vm_compute; reflexivity).
    discriminate. }
  destruct (session_stored cpython world ∅ _ _ _ _ _ _ _ ip Scenario.get_wire
              Scenario.reply Harr eq_refl (lookup_empty _) Hdns Hacc
              ltac:(vm_compute; reflexivity) Htakes Hdrain Hdisk)
    as (n & Hfirst).
  cbn zeta. rewrite Hfirst. cbn [fst snd].
  rewrite (session_hit cpython world' _ _ _ _ _ _ _ _ Scenario.reply Harr
             eq_refl) by apply lookup_insert_eq.
  repeat split.
  - rewrite !connections_app, connections_recv. done.
  - apply in_or_app. right. apply in_or_app. right. by left.
  - rewrite !to_client_app, to_client_recv. done.
Qed.

Lemma example_scenario_witness :
  let key := lit "http___example.test_a.html" in
  let first := session cpython Scenario.healthy ∅ [Data Scenario.get_request] in
  let second :=
    session cpython Scenario.dead (snd first) [Data Scenario.get_request] in
  snd first = {[ key := File Scenario.reply ]}
  /\ to_client (fst second) = [Scenario.reply].
Proof.
  intros key first second.
  destruct (example_scenario Scenario.healthy Scenario.dead Scenario.address)
    as (_ & _ & _ & Hstored & Hsecond).
  - reflexivity.
  - reflexivity.
  - reflexivity.
  - reflexivity.
  - reflexivity.
  - split; [exact Hstored|]. subst second first. by rewrite Hsecond.
Defined.

(** C9, as stated, fails on the name of the cache file: nothing is looked
    up or stored under [http:__example.test_a.html]. *)
Lemma example_scenario_key_has_no_colon :
  let first := session cpython Scenario.healthy ∅ [Data Scenario.get_request] in
  omap cache_file_of (fst first)
  = [lit "http___example.test_a.html"; lit "http___example.test_a.html"]
  /\ lit "http___example.test_a.html" <> lit "http:__example.test_a.html"
  /\ snd first !! lit "http:__example.test_a.html" = None
  /\ snd first !! lit "http___example.test_a.html" = Some (File Scenario.reply).
Proof. repeat split; try (vm_compute; reflexivity). discriminate. Qed.

Lemma emits_impl (ok ok' : event -> Prop) {A} (m : M A) :
  (forall e, ok e -> ok' e) -> emits ok m -> emits ok' m.
Proof.
  intros Himpl Hm st. destruct (Hm st) as (t & Ht & Hall).
  exists t. split; [done|]. by eapply Forall_impl.
Qed.

Lemma respond_blind (py : runtime) (world : env) (data : bytes) :
  blind (respond py world data).
Proof.
  pose proof (relay_blind py world) as Hrelay.
  unfold respond, client_close, client_sendall.
  walk (@blind_bind).
Qed.

Lemma respond_no_read (py : runtime) (world : env) (data : bytes) :
  emits (fun e => e <> ClientRecv) (respond py world data).
Proof.
  assert (Hrelay : forall method url host path headers request,
             emits (fun e => e <> ClientRecv)
               (relay py world method url host path headers request)).
  { intros. eapply emits_impl; [|apply relay_calls].
    intros e He. by destruct He. }
  unfold respond, client_close, client_sendall.
  walk (@emits_bind (fun e => e <> ClientRecv)).
Qed.

Lemma conclude_set_client (s : sock) (run : outcome unit * state) :
  conclude (fst run, set_client s (snd run)) = set_client s (conclude run).
Proof. by destruct run as [[[]| |e] st]. Qed.

(** The handler is one [recv] followed by code that never looks at the
    client's queue again. *)
Lemma handle_client_read (py : runtime) (world : env) (fs : cache_dir)
    (client : sock) :
  handle_client py world (accepted fs client)
  = set_client (snd (recv BUFSIZE client))
      (conclude
         match fst (recv BUFSIZE client) with
         | Some data => respond py world data (after_read fs [])
         | None => (Raised OSError, after_read fs [])
         end).
Proof.
  unfold handle_client, serve, mbind, M_bind, client_recv, accepted.
  cbn [client_sock].
  destruct (recv BUFSIZE client) as [[data|] rest]; cbn [fst snd]; [|done].
  rewrite <- conclude_set_client, <- respond_blind. done.
Qed.

Lemma recv_first_read (client : sock) :
  fst (recv BUFSIZE (first_read client)) = fst (recv BUFSIZE client).
Proof.
  destruct client as [|[d|] rest]; cbn; [done| |done].
  f_equal. apply take_take.
Qed.

Lemma client_reads_app (t u : list event) :
  client_reads (t ++ u) = (client_reads t + client_reads u)%nat.
Proof. unfold client_reads. by rewrite List.filter_app, length_app. Qed.

Lemma client_reads_none (t : list event) :
  Forall (fun e => e <> ClientRecv) t -> client_reads t = 0%nat.
Proof.
  induction 1 as [|e t He _ IH]; [done|].
  unfold client_reads in *. cbn. by destruct e.
Qed.

(** C10.  Every session reads from the client exactly once, at most 8192
    bytes: what stays queued on the client socket after that one [recv] is
    still there when the handler is done, and the calls made and the cache
    directory left behind are those of a client that sent the first read
    and nothing more. *)
Theorem one_read_from_client (py : runtime) (world : env) (fs : cache_dir)
    (client : sock) :
  let st := handle_client py world (accepted fs client) in
  client_reads (trace st) = 1%nat
  /\ client_sock st = snd (recv BUFSIZE client)
  /\ (forall data,
         fst (recv BUFSIZE client) = Some data ->
         N.of_nat (length data) <= 8192)
  /\ session py world fs client = session py world fs (first_read client).
Proof.
  cbn zeta. repeat split.
  - rewrite handle_client_read. cbn [trace set_client].
    destruct (fst (recv BUFSIZE client)) as [data|]; [|done].
    destruct (respond_no_read py world data (after_read fs []))
      as (t & Ht & Hall).
    unfold conclude.
    destruct (respond py world data (after_read fs [])) as [[[]| |e] st];
      cbn [fst snd trace emit] in *; rewrite Ht, ?client_reads_app,
      (client_reads_none t Hall); done.
  - by rewrite handle_client_read.
  - intros data Hdata. destruct client as [|[d|] rest]; cbn in Hdata;
      simplify_eq; cbn; [lia|].
    rewrite length_take. unfold BUFSIZE. lia.
  - unfold session. rewrite !handle_client_read, recv_first_read. done.
Qed.

(** ** File names and lines *)

Lemma sanitize_filename_map (url : str) :
  sanitize_filename url
  = map (fun c => if separator c then underscore else c) url.
Proof.
  unfold sanitize_filename, replace. rewrite !map_map.
  apply map_ext. intros c. unfold separator.
  destruct (c =? slash) eqn:E1; cbn [orb].
  - apply N.eqb_eq in E1. subst c. reflexivity.
  - destruct (c =? question) eqn:E2; cbn [orb].
    + apply N.eqb_eq in E2. subst c. reflexivity.
    + reflexivity.
Qed.

Lemma separator_underscore (c : N) :
  separator (if separator c then underscore else c) = false.
Proof. destruct (separator c) eqn:E; [reflexivity | exact E]. Qed.

(** X1.  [sanitize_filename] works character by character: the file name
    is as long as the URL, [/], [?] and [:] have become [_], every other
    character is where it was, and no [/], [?] or [:] is left. *)
Theorem sanitize_filename_keeps_shape (url : str) :
  length (sanitize_filename url) = length url
  /\ Forall (fun c => c <> slash /\ c <> question /\ c <> colon)
       (sanitize_filename url)
  /\ forall i c,
       url !! i = Some c ->
       sanitize_filename url !! i
       = Some (if separator c then underscore else c).
Proof.
  rewrite sanitize_filename_map. split; [apply length_map|]. split.
  - apply Forall_forall. intros c Hc. apply list_elem_of_In, in_map_iff in Hc.
    destruct Hc as (x & <- & _).
    pose proof (separator_underscore x) as H. unfold separator in H.
    apply orb_false_elim in H as [H H3]. apply orb_false_elim in H as [H1 H2].
    apply N.eqb_neq in H1, H2, H3. done.
  - intros i c Hi. by rewrite list_lookup_fmap, Hi.
Qed.

(** X2.  A file name that [sanitize_filename] made is left as it is by
    [sanitize_filename]. *)
Theorem sanitize_filename_idempotent (url : str) :
  sanitize_filename (sanitize_filename url) = sanitize_filename url.
Proof.
  rewrite !sanitize_filename_map, map_map. apply map_ext. intros c.
  by rewrite separator_underscore.
Qed.

Lemma push_join (c : N) (parts : list str) :
  parts <> [] -> join crlf (push c parts) = c :: join crlf parts.
Proof. destruct parts as [|p [|q ps]]; done. Qed.

Lemma split_crlf_two (c d : N) (r : str) :
  split_crlf (c :: d :: r)
  = if (c =? CR) && (d =? LF) then [] :: split_crlf r
    else push c (split_crlf (d :: r)).
Proof. reflexivity. Qed.

Lemma join_after_empty (parts : list str) :
  parts <> [] -> join crlf ([] :: parts) = crlf ++ join crlf parts.
Proof. by destruct parts. Qed.

Lemma split_crlf_join_bounded (n : nat) :
  forall s, (length s <= n)%nat -> join crlf (split_crlf s) = s.
Proof.
  induction n as [|n IH]; intros s Hn.
  - destruct s; [reflexivity | cbn in Hn; lia].
  - destruct s as [|c [|d r]]; [reflexivity | reflexivity |].
    rewrite split_crlf_two. destruct ((c =? CR) && (d =? LF)) eqn:E.
    + apply andb_prop in E as [Ec Ed]. apply N.eqb_eq in Ec, Ed. subst c d.
      rewrite join_after_empty by apply split_crlf_nonempty.
      rewrite IH by (cbn in Hn; lia). reflexivity.
    + rewrite push_join by apply split_crlf_nonempty.
      rewrite IH by (cbn in Hn |- *; lia). reflexivity.
Qed.

Lemma contains_crlf_cons (c : N) (h : str) :
  contains crlf h = false ->
  (c = CR -> hd 0 h <> LF \/ h = []) ->
  contains crlf (c :: h) = false.
Proof.
  unfold contains. intros Hh Hc. cbn [find startswith crlf].
  destruct (find crlf h) eqn:Ef; [done|].
  destruct (CR =? c) eqn:E1; cbn [andb].
  - apply N.eqb_eq in E1. symmetry in E1. destruct (Hc E1) as [Hd| ->].
    + destruct h as [|b h']; [reflexivity|]. cbn in Hd.
      destruct (LF =? b) eqn:E2; [apply N.eqb_eq in E2; congruence|].
      reflexivity.
    + reflexivity.
  - reflexivity.
Qed.

Lemma split_crlf_head (n : nat) :
  forall s, (length s <= n)%nat ->
  hd [] (split_crlf s) = [] \/ hd 0 (hd [] (split_crlf s)) = hd 0 s.
Proof.
  induction n as [|n IH]; intros s Hn.
  - destruct s; [by left | cbn in Hn; lia].
  - destruct s as [|c [|d r]]; [by left | by right |].
    rewrite split_crlf_two. destruct ((c =? CR) && (d =? LF)); [by left|].
    right. destruct (split_crlf (d :: r)); reflexivity.
Qed.

Lemma split_crlf_lines_bounded (n : nat) :
  forall s, (length s <= n)%nat ->
  Forall (fun line => contains crlf line = false) (split_crlf s).
Proof.
  induction n as [|n IH]; intros s Hn.
  - destruct s; [by repeat constructor | cbn in Hn; lia].
  - destruct s as [|c [|d r]]; [by repeat constructor | |].
    { repeat constructor. apply contains_crlf_cons; [reflexivity|].
      intros _. by right. }
    rewrite split_crlf_two. destruct ((c =? CR) && (d =? LF)) eqn:E.
    + constructor; [reflexivity|]. apply IH. cbn in Hn. lia.
    + assert (Hrest : (length (d :: r) <= n)%nat) by (cbn in Hn |- *; lia).
      pose proof (IH _ Hrest) as Hall.
      pose proof (split_crlf_head n _ Hrest) as Hhd.
      pose proof (split_crlf_nonempty (d :: r)) as Hne.
      destruct (split_crlf (d :: r)) as [|h t]; [done|].
      cbn [push hd] in *. inversion Hall as [|? ? Hh Ht]; subst.
      constructor; [|exact Ht].
      apply contains_crlf_cons; [exact Hh|].
      intros ->. destruct Hhd as [->|Hd]; [by right|]. left.
      rewrite Hd. intros ->. cbn in E. done.
Qed.

(** X3.  [request.split("\r\n")] loses nothing: joining the lines with
    CRLF gives the request back, and no line contains a CRLF. *)
Theorem split_crlf_join (s : str) :
  join crlf (split_crlf s) = s
  /\ Forall (fun line => contains crlf line = false) (split_crlf s).
Proof.
  split.
  - by apply (split_crlf_join_bounded (length s)).
  - by apply (split_crlf_lines_bounded (length s)).
Qed.

(** ** UTF-8 *)

Lemma byte_of_to_N (n : N) : n < 256 -> Byte.to_N (byte_of n) = n.
Proof.
  intros Hn. unfold byte_of. destruct (Byte.of_N n) as [b|] eqn:E.
  - by apply Byte.to_of_N in E.
  - apply Byte.of_N_None_iff in E. lia.
Qed.

Lemma byte_of_of_to_N (b : byte) : byte_of (Byte.to_N b) = b.
Proof. unfold byte_of. by rewrite Byte.of_to_N. Qed.

(** Decide the comparisons in the goal from the arithmetic in context. *)
Ltac tests :=
  unfold second_of_three, second_of_four, is_cont, between in *;
  repeat match goal with
         | |- context [?a <? ?b] => destruct (N.ltb_spec a b); try lia
         | |- context [?a <=? ?b] => destruct (N.leb_spec a b); try lia
         | |- context [?a =? ?b] => destruct (N.eqb_spec a b); try lia
         end;
  cbn [andb orb negb].

Lemma quotients (c : N) :
  exists a b d,
    c = 4096 * a + 64 * b + d /\ b < 64 /\ d < 64
    /\ c / 64 = 64 * a + b /\ c mod 64 = d
    /\ (c / 64) mod 64 = b /\ c / 4096 = a.
Proof.
  exists (c / 64 / 64), ((c / 64) mod 64), (c mod 64).
  pose proof (N.div_mod c 64 ltac:(lia)).
  pose proof (N.div_mod (c / 64) 64 ltac:(lia)).
  pose proof (N.mod_lt c 64 ltac:(lia)).
  pose proof (N.mod_lt (c / 64) 64 ltac:(lia)).
  assert (E1 : c / 4096 = c / 64 / 64)
    by (change 4096 with (64 * 64); by rewrite N.Div0.div_div).
  rewrite E1. repeat split; try lia.
Qed.

Lemma quotients4 (c : N) :
  exists a b d e,
    c = 262144 * a + 4096 * b + 64 * d + e /\ b < 64 /\ d < 64 /\ e < 64
    /\ c mod 64 = e /\ (c / 64) mod 64 = d /\ (c / 4096) mod 64 = b
    /\ c / 262144 = a.
Proof.
  exists (c / 64 / 64 / 64), ((c / 64 / 64) mod 64), ((c / 64) mod 64),
    (c mod 64).
  pose proof (N.div_mod c 64 ltac:(lia)).
  pose proof (N.div_mod (c / 64) 64 ltac:(lia)).
  pose proof (N.div_mod (c / 64 / 64) 64 ltac:(lia)).
  pose proof (N.mod_lt c 64 ltac:(lia)).
  pose proof (N.mod_lt (c / 64) 64 ltac:(lia)).
  pose proof (N.mod_lt (c / 64 / 64) 64 ltac:(lia)).
  assert (E1 : c / 4096 = c / 64 / 64)
    by (change 4096 with (64 * 64); by rewrite N.Div0.div_div).
  assert (E2 : c / 262144 = c / 64 / 64 / 64)
    by (change 262144 with (64 * 64 * 64); by rewrite !N.Div0.div_div).
  rewrite E1, E2. repeat split; try lia.
Qed.

Lemma utf8_decode_encode_char (c : N) (bs : bytes) (rest : list N) :
  encode_char c = Some bs ->
  utf8_decode (map Byte.to_N bs ++ rest) = cons c <$> utf8_decode rest.
Proof.
  unfold encode_char. intros H.
  destruct (N.ltb_spec c 128) as [H1|H1].
  { simplify_eq. cbn [map app utf8_decode]. rewrite byte_of_to_N by lia.
    tests. all: reflexivity. }
  destruct (N.ltb_spec c 2048) as [H2|H2].
  { simplify_eq. destruct (quotients c) as (a & b & d & Hc & Hb & Hd & Eq & Em & _ & _).
    rewrite Eq, Em. cbn [map app utf8_decode].
    rewrite !byte_of_to_N by lia. tests.
    all: do 2 f_equal; lia. }
  destruct (N.ltb_spec c 65536) as [H3|H3].
  { destruct (between 55296 57343 c) eqn:Hs; [done|]. simplify_eq.
    assert (Hsur : c < 55296 \/ 57343 < c).
    { unfold between in Hs. apply andb_false_iff in Hs as [Hs|Hs].
      - apply N.leb_gt in Hs. lia.
      - apply N.leb_gt in Hs. lia. }
    destruct (quotients c) as (a & b & d & Hc & Hb & Hd & _ & Em & Eb & Ea).
    rewrite Ea, Em, Eb. cbn [map app utf8_decode].
    rewrite !byte_of_to_N by lia. tests.
    all: do 2 f_equal; lia. }
  destruct (N.ltb_spec c 1114112) as [H4|H4]; [|done].
  simplify_eq.
  destruct (quotients4 c) as (a & b & d & e & Hc & Hb & Hd & He & Ee & Ed & Eb & Ea).
  rewrite Ea, Ee, Ed, Eb. cbn [map app utf8_decode].
  rewrite !byte_of_to_N by lia. tests.
  all: do 2 f_equal; lia.
Qed.

Lemma decode_encode (s : str) (b : bytes) :
  encode s = Some b -> decode b = Some s.
Proof.
  unfold decode. revert b. induction s as [|c r IH]; intros b H.
  - cbn in H. by simplify_eq.
  - cbn [encode] in H.
    destruct (encode_char c) as [bc|] eqn:Ec; [|done].
    destruct (encode r) as [br|] eqn:Er; [|done]. simplify_eq.
    rewrite map_app, (utf8_decode_encode_char c bc _ Ec), (IH br eq_refl).
    reflexivity.
Qed.

Lemma div_mod_64 (q r : N) :
  r < 64 -> (64 * q + r) / 64 = q /\ (64 * q + r) mod 64 = r.
Proof.
  intros Hr. split.
  - symmetry. by apply (N.div_unique (64 * q + r) 64 q r).
  - symmetry. by apply (N.mod_unique (64 * q + r) 64 q r).
Qed.

Lemma pieces3 (a b d : N) :
  b < 64 -> d < 64 ->
  let c := a * 4096 + b * 64 + d in
  c / 4096 = a /\ (c / 64) mod 64 = b /\ c mod 64 = d /\ c / 64 = 64 * a + b.
Proof.
  intros Hb Hd c.
  assert (Ec : c = 64 * (64 * a + b) + d) by (subst c; lia).
  destruct (div_mod_64 (64 * a + b) d Hd) as [E1 E2].
  destruct (div_mod_64 a b Hb) as [E3 E4].
  assert (E5 : c / 4096 = c / 64 / 64)
    by (change 4096 with (64 * 64); by rewrite N.Div0.div_div).
  rewrite E5, Ec, E1, E2, E3, E4. done.
Qed.

Lemma pieces4 (a b d e : N) :
  b < 64 -> d < 64 -> e < 64 ->
  let c := a * 262144 + b * 4096 + d * 64 + e in
  c / 262144 = a /\ (c / 4096) mod 64 = b /\ (c / 64) mod 64 = d
  /\ c mod 64 = e.
Proof.
  intros Hb Hd He c.
  assert (Ec : c = 64 * (64 * (64 * a + b) + d) + e) by (subst c; lia).
  destruct (div_mod_64 (64 * (64 * a + b) + d) e He) as [E1 E2].
  destruct (div_mod_64 (64 * a + b) d Hd) as [E3 E4].
  destruct (div_mod_64 a b Hb) as [E5 E6].
  assert (E7 : c / 4096 = c / 64 / 64)
    by (change 4096 with (64 * 64); by rewrite N.Div0.div_div).
  assert (E8 : c / 262144 = c / 64 / 64 / 64)
    by (change 262144 with (64 * 64 * 64); by rewrite !N.Div0.div_div).
  rewrite E7, E8, Ec, E1, E2, E3, E4, E5, E6. done.
Qed.

(** Decide the comparisons in a hypothesis, dropping impossible cases. *)
Ltac tests_in H :=
  unfold second_of_three, second_of_four, is_cont, between in H;
  repeat match type of H with
         | context [?a <? ?b] => destruct (N.ltb_spec a b)
         | context [?a <=? ?b] => destruct (N.leb_spec a b)
         | context [?a =? ?b] => destruct (N.eqb_spec a b)
         end;
  cbn [andb orb negb] in H; try discriminate H.

Lemma between_true (lo hi b : N) : between lo hi b = true -> lo <= b <= hi.
Proof. intros H. tests_in H. lia. Qed.

Lemma second_of_three_true (b0 b1 : N) :
  second_of_three b0 b1 = true ->
  128 <= b1 <= 191 /\ (b0 = 224 -> 160 <= b1) /\ (b0 = 237 -> b1 <= 159).
Proof. intros H. tests_in H; lia. Qed.

Lemma second_of_four_true (b0 b1 : N) :
  second_of_four b0 b1 = true ->
  128 <= b1 <= 191 /\ (b0 = 240 -> 144 <= b1) /\ (b0 = 244 -> b1 <= 143).
Proof. intros H. tests_in H; lia. Qed.

Lemma fmap_cons_Some (c : N) (o : option str) (s : str) :
  cons c <$> o = Some s -> exists s', o = Some s' /\ s = c :: s'.
Proof. destruct o as [s'|]; [|done]. cbn. intros. simplify_eq. eauto. Qed.

Lemma encode_char_1 (c : N) : c < 128 -> encode_char c = Some [byte_of c].
Proof. intros. unfold encode_char. destruct (N.ltb_spec c 128); [done | lia]. Qed.

Lemma encode_char_2 (b0 b1 : N) :
  194 <= b0 <= 223 -> 128 <= b1 <= 191 ->
  encode_char ((b0 - 192) * 64 + (b1 - 128)) = Some [byte_of b0; byte_of b1].
Proof.
  intros H0 H1. set (c := (b0 - 192) * 64 + (b1 - 128)).
  destruct (div_mod_64 (b0 - 192) (b1 - 128) ltac:(lia)) as [E1 E2].
  assert (Ec : c = 64 * (b0 - 192) + (b1 - 128)) by (subst c; lia).
  unfold encode_char.
  destruct (N.ltb_spec c 128); [lia|].
  destruct (N.ltb_spec c 2048); [|lia].
  rewrite Ec, E1, E2.
  replace (192 + (b0 - 192)) with b0 by lia.
  replace (128 + (b1 - 128)) with b1 by lia. reflexivity.
Qed.

Lemma encode_char_3 (b0 b1 b2 : N) :
  224 <= b0 <= 239 -> second_of_three b0 b1 = true -> 128 <= b2 <= 191 ->
  encode_char ((b0 - 224) * 4096 + (b1 - 128) * 64 + (b2 - 128))
  = Some [byte_of b0; byte_of b1; byte_of b2].
Proof.
  intros H0 H1 H2. apply second_of_three_true in H1 as (H1 & Hlo & Hhi).
  destruct (pieces3 (b0 - 224) (b1 - 128) (b2 - 128)) as (E1 & E2 & E3 & _);
    [lia | lia |].
  set (c := (b0 - 224) * 4096 + (b1 - 128) * 64 + (b2 - 128)) in *.
  assert (Hc : 2048 <= c < 65536 /\ (c < 55296 \/ 57343 < c))
    by (subst c; lia).
  unfold encode_char.
  destruct (N.ltb_spec c 128); [lia|].
  destruct (N.ltb_spec c 2048); [lia|].
  destruct (N.ltb_spec c 65536); [|lia].
  assert (Hs : between 55296 57343 c = false).
  { unfold between. destruct (N.leb_spec 55296 c); destruct (N.leb_spec c 57343);
      cbn [andb]; (reflexivity || lia). }
  rewrite Hs, E1, E2, E3.
  replace (224 + (b0 - 224)) with b0 by lia.
  replace (128 + (b1 - 128)) with b1 by lia.
  replace (128 + (b2 - 128)) with b2 by lia. reflexivity.
Qed.

Lemma encode_char_4 (b0 b1 b2 b3 : N) :
  240 <= b0 <= 244 -> second_of_four b0 b1 = true -> 128 <= b2 <= 191 ->
  128 <= b3 <= 191 ->
  encode_char ((b0 - 240) * 262144 + (b1 - 128) * 4096 + (b2 - 128) * 64
               + (b3 - 128))
  = Some [byte_of b0; byte_of b1; byte_of b2; byte_of b3].
Proof.
  intros H0 H1 H2 H3. apply second_of_four_true in H1 as (H1 & Hlo & Hhi).
  destruct (pieces4 (b0 - 240) (b1 - 128) (b2 - 128) (b3 - 128))
    as (E1 & E2 & E3 & E4); [lia | lia | lia |].
  set (c := (b0 - 240) * 262144 + (b1 - 128) * 4096 + (b2 - 128) * 64
            + (b3 - 128)) in *.
  assert (Hc : 65536 <= c < 1114112) by (subst c; lia).
  unfold encode_char.
  destruct (N.ltb_spec c 128); [lia|].
  destruct (N.ltb_spec c 2048); [lia|].
  destruct (N.ltb_spec c 65536); [lia|].
  destruct (N.ltb_spec c 1114112); [|lia].
  rewrite E1, E2, E3, E4.
  replace (240 + (b0 - 240)) with b0 by lia.
  replace (128 + (b1 - 128)) with b1 by lia.
  replace (128 + (b2 - 128)) with b2 by lia.
  replace (128 + (b3 - 128)) with b3 by lia. reflexivity.
Qed.

Lemma encode_utf8_decode (n : nat) :
  forall (bs : list N) (s : str),
    (length bs <= n)%nat ->
    utf8_decode bs = Some s ->
    encode s = Some (map byte_of bs).
Proof.
  induction n as [|n IH]; intros bs s Hn H.
  { destruct bs; [cbn in H; by simplify_eq | cbn in Hn; lia]. }
  destruct bs as [|b0 r0]; [cbn in H; by simplify_eq|].
  cbn [utf8_decode] in H.
  destruct (N.ltb_spec b0 128) as [H1|H1].
  { apply fmap_cons_Some in H as (s' & Hs' & ->). cbn [encode map].
    rewrite (IH r0 s') by (done || (cbn in Hn; lia)).
    by rewrite encode_char_1. }
  destruct (between 194 223 b0) eqn:T2.
  { destruct r0 as [|b1 r1]; [done|].
    destruct (is_cont b1) eqn:T; [|done].
    apply fmap_cons_Some in H as (s' & Hs' & ->). cbn [encode map].
    rewrite (IH r1 s') by (done || (cbn in Hn; lia)).
    rewrite encode_char_2; [done|by apply between_true..]. }
  destruct (between 224 239 b0) eqn:T3.
  { destruct r0 as [|b1 [|b2 r2]]; [done..|].
    destruct (second_of_three b0 b1 && is_cont b2) eqn:T; [|done].
    apply fmap_cons_Some in H as (s' & Hs' & ->).
    apply andb_prop in T as [Ta Tb]. cbn [encode map].
    rewrite (IH r2 s') by (done || (cbn in Hn; lia)).
    rewrite encode_char_3; [done|by apply between_true|done|by apply between_true]. }
  destruct (between 240 244 b0) eqn:T4; [|done].
  destruct r0 as [|b1 [|b2 [|b3 r3]]]; [done..|].
  destruct (second_of_four b0 b1 && is_cont b2 && is_cont b3) eqn:T; [|done].
  apply fmap_cons_Some in H as (s' & Hs' & ->).
  apply andb_prop in T as [T Tc]. apply andb_prop in T as [Ta Tb].
  cbn [encode map].
  rewrite (IH r3 s') by (done || (cbn in Hn; lia)).
  rewrite encode_char_4;
    [done|by apply between_true|done|by apply between_true..].
Qed.

Lemma encode_decode (b : bytes) (s : str) :
  decode b = Some s -> encode s = Some b.
Proof.
  unfold decode. intros H.
  rewrite (encode_utf8_decode (length (map Byte.to_N b)) _ s) by done.
  f_equal. rewrite map_map. rewrite <- (map_id b) at 2. apply map_ext.
  apply byte_of_of_to_N.
Qed.

(** X4.  [bytes.decode()] and [str.encode()] are inverse to each other
    wherever they succeed: [b] decodes to [s] exactly when [s] encodes to
    [b].  So the strict decoder accepts one byte sequence per text: the
    shortest form, without surrogates, up to U+10FFFF. *)
Theorem utf8_round_trip (b : bytes) (s : str) :
  decode b = Some s <-> encode s = Some b.
Proof. split; [apply encode_decode | apply decode_encode]. Qed.

(** ** The request line, the body and the headers *)

Lemma split_from_words (s : str) :
  forall acc,
    Forall (fun c => isspace c = false) acc ->
    Forall word (split_from acc s)
    /\ concat (split_from acc s)
       = rev acc ++ List.filter (fun c => negb (isspace c)) s.
Proof.
  induction s as [|c r IH]; intros acc Hacc.
  - cbn [split_from List.filter]. destruct acc as [|a acc'].
    + by split.
    + split.
      * constructor; [|constructor]. split.
        -- intros E. apply (f_equal (@length N)) in E.
           rewrite length_rev in E. done.
        -- apply Forall_forall. intros x Hx. rewrite Forall_forall in Hacc.
           apply Hacc. apply list_elem_of_In. apply list_elem_of_In in Hx.
           by apply in_rev.
      * cbn [concat]. by rewrite !app_nil_r.
  - cbn [split_from List.filter]. destruct (isspace c) eqn:Ec; cbn [negb].
    + destruct (IH [] ltac:(constructor)) as [Hw Hc].
      destruct acc as [|a acc'].
      * by split.
      * split.
        -- constructor; [|exact Hw]. split.
           ++ intros E. apply (f_equal (@length N)) in E.
              rewrite length_rev in E. done.
           ++ apply Forall_forall. intros x Hx. rewrite Forall_forall in Hacc.
              apply Hacc. apply list_elem_of_In. apply list_elem_of_In in Hx.
              by apply in_rev.
        -- cbn [concat]. by rewrite Hc.
    + destruct (IH (c :: acc) ltac:(by constructor)) as [Hw Hc].
      split; [exact Hw|]. rewrite Hc. cbn [rev]. by rewrite <- app_assoc.
Qed.

(** X5.  When the request line splits into three, the method, the target
    and the protocol are not empty and hold no white space, and together
    they are the characters of the first line that are not white space, in
    order. *)
Theorem request_line_tokens (py : runtime) (client : sock)
    (request method target protocol host path : str) :
  arrives py client request method target protocol host path ->
  word method /\ word target /\ word protocol
  /\ List.filter (fun c => negb (isspace c)) (hd [] (split_crlf request))
     = method ++ target ++ protocol.
Proof.
  intros (data & _ & _ & _ & Hline & _).
  destruct (split_from_words (hd [] (split_crlf request)) [] ltac:(constructor))
    as [Hw Hc].
  unfold split in Hline. rewrite Hline in Hw, Hc.
  inversion Hw as [|? ? H1 Hw1]; subst. inversion Hw1 as [|? ? H2 Hw2]; subst.
  inversion Hw2 as [|? ? H3 _]; subst.
  do 3 (split; [done|]). cbn [rev app] in Hc. rewrite <- Hc.
  cbn [concat]. by rewrite app_nil_r.
Qed.

Lemma startswith_prefix (p s : str) :
  startswith p s = true <-> exists t, s = p ++ t.
Proof.
  revert s. induction p as [|a p IH]; intros s.
  - split; [intros _; by exists s | done].
  - destruct s as [|b s]; cbn [startswith].
    + split; [done | intros (t & Ht); done].
    + rewrite andb_true_iff, N.eqb_eq, IH. split.
      * intros (-> & t & ->). by exists t.
      * intros (t & Ht). cbn in Ht. simplify_eq. eauto.
Qed.

Lemma find_first (sub s : str) (i : nat) :
  find sub s = Some i ->
  s = take i s ++ sub ++ drop (i + length sub) s
  /\ forall j, (j < i)%nat -> startswith sub (drop j s) = false.
Proof.
  revert i. induction s as [|c r IH]; intros i H.
  - cbn [find] in H. destruct (startswith sub []) eqn:E; [|done].
    simplify_eq. apply startswith_prefix in E as (t & Ht).
    split; [|intros; lia]. destruct sub; [|done]. reflexivity.
  - cbn [find] in H. destruct (startswith sub (c :: r)) eqn:E.
    + simplify_eq. split; [|intros; lia].
      apply startswith_prefix in E as (t & Ht). rewrite Ht at 1.
      cbn [take app plus]. rewrite Ht, drop_app_length. reflexivity.
    + destruct (find sub r) as [k|] eqn:Ek; [|done]. cbn in H. simplify_eq.
      destruct (IH k eq_refl) as [Hr Hmin]. split.
      * cbn [take drop plus]. rewrite <- app_comm_cons. by rewrite <- Hr.
      * intros [|j] Hj; [exact E|]. cbn [drop]. apply Hmin. lia.
Qed.

(** X6.  For a POST whose text has a blank line, the body sent on is what
    follows the first CRLF CRLF: the text is what precedes it, the four
    characters, and the body, and no CRLF CRLF starts earlier. *)
Theorem post_body_follows_first_blank_line (py : runtime)
    (method request : str) (i : nat) :
  upper py method = lit "POST" ->
  find (crlf ++ crlf) request = Some i ->
  request = take i request ++ crlf ++ crlf ++ post_body py method request
  /\ forall j, (j < i)%nat -> startswith (crlf ++ crlf) (drop j request) = false.
Proof.
  intros Hpost Hfind. unfold post_body.
  rewrite (bool_decide_eq_true_2 _ Hpost), Hfind.
  destruct (find_first _ _ _ Hfind) as [Hs Hmin]. split; [|exact Hmin].
  rewrite <- app_assoc in Hs. exact Hs.
Qed.

Lemma startswith_app (sub rest : str) : startswith sub (sub ++ rest) = true.
Proof. induction sub as [|c sub IH]; [done|]. cbn. by rewrite N.eqb_refl. Qed.

Lemma contains_cons (sub : str) (c : N) (s : str) :
  contains sub (c :: s) = startswith sub (c :: s) || contains sub s.
Proof.
  unfold contains. cbn [find].
  destruct (startswith sub (c :: s)); [done|]. by destruct (find sub s).
Qed.

Lemma contains_middle (sub before rest : str) :
  contains sub (before ++ sub ++ rest) = true.
Proof.
  induction before as [|c before IH].
  - cbn [app]. unfold contains.
    destruct (sub ++ rest) eqn:E; cbn [find]; rewrite <- E;
      by rewrite startswith_app.
  - cbn [app]. rewrite contains_cons, IH. apply orb_true_r.
Qed.

Lemma In_tl {A} (x : A) (l : list A) : In x (tl l) -> In x l.
Proof. destruct l; [done|]. by right. Qed.

Lemma tl_push (c : N) (parts : list str) :
  parts <> [] -> tl (push c parts) = tl parts.
Proof. by destruct parts. Qed.

(** A blank line in the text is an empty line after the first. *)
Lemma blank_line_empty_header_cons (s : str) :
  (contains (crlf ++ crlf) s = true -> In [] (tl (split_crlf s)))
  /\ forall c,
       contains (crlf ++ crlf) (c :: s) = true ->
       In [] (tl (split_crlf (c :: s))).
Proof.
  induction s as [|d r [IHr IHdr]].
  - split; [done|]. intros c. rewrite contains_cons. intros H.
    apply orb_prop in H as [H|H]; [|done].
    apply startswith_prefix in H as (t & Ht). done.
  - split; [apply IHdr|]. intros c. rewrite contains_cons, split_crlf_two.
    intros H. destruct ((c =? CR) && (d =? LF)) eqn:E.
    + apply andb_prop in E as [Ec Ed]. apply N.eqb_eq in Ec, Ed. subst c d.
      cbn [tl]. apply orb_prop in H as [H|H].
      * apply startswith_prefix in H as (t & Ht). cbn in Ht. simplify_eq.
        by left.
      * rewrite contains_cons in H. apply orb_prop in H as [H|H].
        -- apply startswith_prefix in H as (t & Ht). done.
        -- by apply In_tl, IHr.
    + rewrite tl_push by apply split_crlf_nonempty.
      apply orb_prop in H as [H|H]; [|by apply IHdr].
      apply startswith_prefix in H as (t & Ht). cbn in Ht. by simplify_eq.
Qed.

Lemma forward_concat (py : runtime) (headers : list str) :
  forward py headers
  = concat (map (fun header => header ++ crlf)
              (List.filter (fun header => negb (dropped py header)) headers)).
Proof. unfold forward. by rewrite forward_from. Qed.

Lemma forward_app (py : runtime) (a b : list str) :
  forward py (a ++ b) = forward py a ++ forward py b.
Proof. by rewrite !forward_concat, List.filter_app, map_app, concat_app. Qed.

Lemma forward_line_ended (py : runtime) (headers : list str) :
  forall acc,
    (exists u, acc = u ++ crlf) ->
    exists u, acc ++ forward py headers = u ++ crlf.
Proof.
  rewrite forward_concat.
  induction (List.filter _ headers) as [|h hs IH]; intros acc Hacc.
  - cbn. by rewrite app_nil_r.
  - cbn [map concat]. rewrite !app_assoc. apply IH.
    by exists (acc ++ h).
Qed.

(** X7.  The header list is every line after the first, the blank line
    that ends the client's headers included.  So for a request with a blank
    line the text sent to the origin has a blank line before the proxy's
    own [Host], [Connection: close] and [User-Agent] lines: they come after
    the end of the header block. *)
Theorem own_headers_follow_blank_line (py : runtime)
    (method path host request : str) :
  lower py [] = [] ->
  contains (crlf ++ crlf) request = true ->
  exists head,
    outbound py method path host (tl (split_crlf request)) request
    = head ++ (lit "Host: " ++ host ++ crlf)
      ++ (lit "Connection: close" ++ crlf)
      ++ (lit "User-Agent: PythonProxy/1.0" ++ crlf)
      ++ crlf ++ post_body py method request
    /\ contains (crlf ++ crlf) head = true.
Proof.
  intros Hlower Hblank.
  apply (proj1 (blank_line_empty_header_cons request)) in Hblank.
  apply in_split in Hblank as (before & after & Hheaders).
  exists ((method ++ lit " " ++ path ++ lit " HTTP/1.1" ++ crlf)
          ++ forward py (tl (split_crlf request))).
  split.
  - unfold outbound. by rewrite <- !app_assoc.
  - rewrite Hheaders, forward_app.
    destruct (forward_line_ended py before
                (method ++ lit " " ++ path ++ lit " HTTP/1.1" ++ crlf))
      as (u & Hu).
    { exists (method ++ lit " " ++ path ++ lit " HTTP/1.1").
      by rewrite <- !app_assoc. }
    rewrite app_assoc, Hu.
    change ([] :: after) with ([[]] ++ after). rewrite forward_app.
    assert (Hempty : forward py [[]] = crlf).
    { unfold forward, dropped. cbn. by rewrite Hlower. }
    rewrite Hempty, <- !app_assoc.
    rewrite (app_assoc crlf crlf). apply contains_middle.
Qed.

(** ** One answer per session *)

Lemma relay_branches (py : runtime) (world : env) (method url host path : str)
    (headers : list str) (request : str) :
  relay py world method url host path headers request
  = (makedirs;;
     hit ← (if bool_decide (upper py method = lit "GET")
            then path_exists (sanitize_filename url) else mret false);
     if hit : bool then from_cache url
     else exchange py world method url host path headers request).
Proof. reflexivity. Qed.

Lemma sent_emit (e : event) (st : state) :
  sent (emit e st)
  = (match e with ClientSendall _ => 1 | _ => 0 end + sent st)%nat.
Proof.
  unfold sent, emit. cbn [trace]. rewrite to_client_app, length_app.
  destruct e; cbn; lia.
Qed.

Lemma answers_bind {A B} (nv : nat) (m : M A) (k : A -> M B) :
  answers 0 m -> (forall a, answers nv (k a)) -> answers nv (m ≫= k).
Proof.
  intros Hm Hk st. specialize (Hm st). unfold mbind, M_bind.
  destruct (m st) as [[a| |e] st1]; cbn [fst snd] in *; [|lia..].
  rewrite Hk. lia.
Qed.

Lemma answers_send {B} (data : bytes) (k : M B) :
  closing k -> answers 1 (client_sendall data ≫= fun _ => k).
Proof.
  intros Hk st. unfold mbind, M_bind, client_sendall, log. cbn [fst snd].
  destruct (Hk (emit (ClientSendall data) st)) as [Hs Hr].
  destruct (k _) as [[b| |e] st1]; cbn [fst snd] in *.
  - rewrite Hs, sent_emit. lia.
  - rewrite Hs, sent_emit. lia.
  - by destruct (Hr e).
Qed.

Lemma answers_raise {A} (nv : nat) (e : exn) : answers nv (@raise A e).
Proof. intros st. reflexivity. Qed.

Lemma answers_ret {A} (a : A) : answers 0 (mret a).
Proof. intros st. reflexivity. Qed.

Lemma answers_or_raise {A} (e : exn) (o : option A) : answers 0 (or_raise e o).
Proof. destruct o; intros st; reflexivity. Qed.

Lemma answers_log (e : event) :
  match e with ClientSendall _ => False | _ => True end ->
  answers 0 (log e).
Proof.
  intros He st. unfold log. cbn [fst snd]. rewrite sent_emit. by destruct e.
Qed.

Lemma answers_path_exists (name : str) : answers 0 (path_exists name).
Proof. intros st. unfold path_exists. cbn [fst snd]. by rewrite sent_emit. Qed.

Lemma answers_contents (name : str) : answers 0 (contents name).
Proof.
  intros st. unfold contents. by destruct (cache st !! name) as [[?|]|].
Qed.

Lemma answers_store (world : env) (name : str) (data : bytes) :
  answers 0 (store world name data).
Proof.
  intros st. unfold store.
  destruct (cache st !! name) as [[?|]|]; [|done|];
    by destruct (disk world name data).
Qed.

Lemma answers_answer_queued (s : sock) : answers 0 (answer_queued s).
Proof. intros st. reflexivity. Qed.

Lemma answers_recv_until_closed : answers 0 recv_until_closed.
Proof.
  intros st. destruct (recv_until_closed_spec st) as (n & s' & ->).
  unfold sent. cbn [fst snd trace].
  rewrite to_client_app, to_client_recv, app_nil_r.
  by destruct (drain (server_sock st)).
Qed.

Lemma closing_log (e : event) :
  match e with ClientSendall _ => False | _ => True end -> closing (log e).
Proof.
  intros He st. unfold log. cbn [fst snd]. rewrite sent_emit. by destruct e.
Qed.

Lemma closing_return {A} : closing (@return_ A).
Proof. by intros st. Qed.

Lemma closing_bind {A B} (m : M A) (k : A -> M B) :
  closing m -> (forall a, closing (k a)) -> closing (m ≫= k).
Proof.
  intros Hm Hk st. destruct (Hm st) as [Hs Hr]. unfold mbind, M_bind.
  destruct (m st) as [[a| |e] st1]; cbn [fst snd] in *.
  - destruct (Hk a st1) as [Hs' Hr']. split; [lia | done].
  - done.
  - by destruct (Hr e).
Qed.

Create HintDb answers.
#[local] Hint Resolve answers_raise answers_ret answers_or_raise answers_log
  answers_path_exists answers_contents answers_store answers_answer_queued
  answers_recv_until_closed closing_log closing_return : answers.

Ltac answering :=
  repeat first
    [ progress intros
    | solve [eauto with answers]
    | exact I
    | apply answers_send
    | apply answers_bind
    | apply closing_bind
    | match goal with
      | |- context [bool_decide ?P] => destruct (bool_decide_reflect P)
      | |- answers _ (if ?b then _ else _) => destruct b
      | |- answers _ (match ?x with _ => _ end) => destruct x
      end ].

Lemma exchange_answers (py : runtime) (world : env)
    (method url host path : str) (headers : list str) (request : str) :
  answers 1 (exchange py world method url host path headers request).
Proof.
  unfold exchange, forward_to, resolve, connect, server_sendall, write_file,
    client_close, server_close.
  answering.
Qed.

Lemma from_cache_answers (url : str) : answers 1 (from_cache url).
Proof. unfold from_cache, read_file, client_close. answering. Qed.

Lemma relay_answers (py : runtime) (world : env)
    (method url host path : str) (headers : list str) (request : str) :
  answers 1 (relay py world method url host path headers request).
Proof.
  rewrite relay_branches. unfold makedirs.
  pose proof (exchange_answers py world method url host path headers request).
  pose proof (from_cache_answers url).
  answering.
Qed.

Ltac open_session :=
  unfold session, handle_client, serve, respond, mbind, M_bind, client_recv,
    accepted; cbn [client_sock].

Lemma session_recv_error (py : runtime) (world : env) (fs : cache_dir)
    (client : sock) :
  fst (recv BUFSIZE client) = None ->
  session py world fs client
  = ([ClientRecv; ClientSendall INTERNAL_ERROR; ClientClose], fs).
Proof.
  intros Hrecv. open_session.
  by destruct (recv BUFSIZE client) as [[d|] rest].
Qed.

Lemma session_undecodable (py : runtime) (world : env) (fs : cache_dir)
    (client : sock) (data : bytes) :
  fst (recv BUFSIZE client) = Some data -> decode data = None ->
  session py world fs client
  = ([ClientRecv; ClientSendall INTERNAL_ERROR; ClientClose], fs).
Proof.
  intros Hrecv Hdec. open_session.
  destruct (recv BUFSIZE client) as [[d|] rest]; [|done].
  cbn in Hrecv. simplify_eq. by rewrite Hdec.
Qed.

Lemma session_empty (py : runtime) (world : env) (fs : cache_dir)
    (client : sock) (data : bytes) :
  fst (recv BUFSIZE client) = Some data -> decode data = Some [] ->
  session py world fs client = ([ClientRecv; ClientClose; ClientClose], fs).
Proof.
  intros Hrecv Hdec. open_session.
  destruct (recv BUFSIZE client) as [[d|] rest]; [|done].
  cbn in Hrecv. simplify_eq. by rewrite Hdec.
Qed.

Lemma session_rejected_target (py : runtime) (world : env) (fs : cache_dir)
    (client : sock) (data : bytes) (request method target protocol : str) :
  fst (recv BUFSIZE client) = Some data -> decode data = Some request ->
  request <> [] ->
  split (hd [] (split_crlf request)) = [method; target; protocol] ->
  urlparse py (with_scheme (strip_slash target)) = None ->
  session py world fs client
  = ([ClientRecv; ClientSendall INTERNAL_ERROR; ClientClose], fs).
Proof.
  intros Hrecv Hdec Hne Hline Hurl. open_session.
  destruct (recv BUFSIZE client) as [[d|] rest]; [|done].
  cbn in Hrecv. simplify_eq. rewrite Hdec. cbn [or_raise mret M_ret].
  destruct request as [|c r]; [done|]. cbn [null].
  destruct (split_crlf (c :: r)) as [|first_line lines] eqn:Hl;
    [by apply split_crlf_nonempty in Hl|].
  cbn [null hd tl] in *. by rewrite Hline, Hurl.
Qed.

Lemma decode_nil (data : bytes) : decode data = Some [] -> data = [].
Proof. intros H. apply encode_decode in H. cbn in H. by simplify_eq. Qed.

Lemma conclude_trace (run : outcome unit * state) :
  last (trace (conclude run)) = Some ClientClose
  /\ sent (conclude run)
     = (match fst run with Raised _ => 1 | _ => 0 end + sent (snd run))%nat.
Proof.
  unfold conclude. split.
  - cbn [emit trace]. apply last_snoc.
  - destruct run as [[[]| |e] st]; cbn [fst snd]; rewrite !sent_emit; lia.
Qed.

(** The calls of a handler that has returned. *)
Lemma session_answers_once (py : runtime) (world : env) (fs : cache_dir)
    (client : sock) :
  let t := fst (session py world fs client) in
  last t = Some ClientClose
  /\ length (to_client t)
     = match fst (recv BUFSIZE client) with Some [] => 0%nat | _ => 1%nat end.
Proof.
  cbn zeta.
  destruct (fst (recv BUFSIZE client)) as [data|] eqn:Hrecv.
  2: { by rewrite session_recv_error. }
  destruct (decode data) as [request|] eqn:Hdec.
  2: { rewrite (session_undecodable _ _ _ _ data) by done.
       destruct data; [done|]. done. }
  destruct request as [|c r].
  { rewrite (session_empty _ _ _ _ data) by done.
    by rewrite (decode_nil data Hdec). }
  assert (Hdata : data <> []) by (intros ->; done).
  assert (Hcount : match data with [] => 0%nat | _ => 1%nat end = 1%nat)
    by by destruct data.
  rewrite Hcount.
  destruct (decide (length (split (hd [] (split_crlf (c :: r)))) = 3%nat))
    as [Hthree|Hthree].
  2: { by rewrite (session_malformed py world fs client data (c :: r)). }
  destruct (split (hd [] (split_crlf (c :: r))))
    as [|method [|target [|protocol [|x l]]]] eqn:Hline; try done.
  destruct (urlparse py (with_scheme (strip_slash target)))
    as [[host path]|] eqn:Hurl.
  2: { by rewrite (session_rejected_target py world fs client data (c :: r)
                     method target protocol). }
  assert (Harr : arrives py client (c :: r) method target protocol host path).
  { exists data. done. }
  rewrite (session_arrives _ _ _ _ _ _ _ _ _ _ Harr).
  unfold outcome_of. cbn [fst].
  set (run := relay _ _ _ _ _ _ _ _ _).
  destruct (conclude_trace run) as [Hlast Hsent]. split; [exact Hlast|].
  change (sent (conclude run) = 1%nat). rewrite Hsent.
  subst run. rewrite relay_answers.
  destruct (fst (relay _ _ _ _ _ _ _ _ _)); reflexivity.
Qed.

(** X8.  At no point of a session has the client been sent more than one
    message: every initial part of the calls made holds at most one send
    to the client.  When the handler returns, which it does when every
    [recv] it waits in returns, its last call closes the client socket,
    and the client has been sent exactly one message, or none when its
    first read is empty.  (Where a peer stays silent the code waits in
    [recv] for ever; the calls made until then are an initial part of the
    calls made when the peer closes instead.) *)
Theorem one_answer_then_close (py : runtime) (world : env) (fs : cache_dir)
    (client : sock) :
  let t := fst (session py world fs client) in
  (forall before after,
      t = before ++ after -> (length (to_client before) <= 1)%nat)
  /\ last t = Some ClientClose
  /\ length (to_client t)
     = match fst (recv BUFSIZE client) with Some [] => 0%nat | _ => 1%nat end.
Proof.
  cbn zeta.
  destruct (session_answers_once py world fs client) as [Hlast Hcount].
  cbn zeta in Hlast, Hcount. split; [|by split].
  intros before after Ht.
  assert (Hle : (length (to_client before)
                 <= length (to_client (fst (session py world fs client))))%nat).
  { rewrite Ht, to_client_app, length_app. lia. }
  rewrite Hcount in Hle.
  destruct (fst (recv BUFSIZE client)) as [[|b data]|]; lia.
Qed.

(** X9.  A session whose read fails, whose bytes are not UTF-8, or whose
    target [urlparse] rejects, sends the bytes
    [HTTP/1.1 500 Internal Server Error\r\n\r\n] and closes, with no other
    call and the cache directory as it was. *)
Theorem early_failure_gets_500 (py : runtime) (world : env) (fs : cache_dir)
    (client : sock) :
  (fst (recv BUFSIZE client) = None
   \/ (exists data,
          fst (recv BUFSIZE client) = Some data /\ decode data = None)
   \/ (exists data request method target protocol,
          fst (recv BUFSIZE client) = Some data
          /\ decode data = Some request /\ request <> []
          /\ split (hd [] (split_crlf request)) = [method; target; protocol]
          /\ urlparse py (with_scheme (strip_slash target)) = None)) ->
  session py world fs client
  = ([ClientRecv;
      ClientSendall (blit "HTTP/1.1 500 Internal Server Error" ++ bcrlf ++ bcrlf);
      ClientClose], fs).
Proof.
  intros [H|[(data & H1 & H2)|(data & request & m & t & p & H1 & H2 & H3 & H4 & H5)]].
  - by apply session_recv_error.
  - by apply (session_undecodable _ _ _ _ data).
  - by apply (session_rejected_target _ _ _ _ data request m t p).
Qed.

(** X10.  A client whose first read is empty is sent nothing; its socket
    is closed twice, once before the [return] and once in [finally]. *)
Theorem empty_read_closes_silently (py : runtime) (world : env)
    (fs : cache_dir) (client : sock) :
  fst (recv BUFSIZE client) = Some [] ->
  session py world fs client = ([ClientRecv; ClientClose; ClientClose], fs).
Proof. intros Hrecv. by apply (session_empty py world fs client []). Qed.

(** ** Failures on the way to the origin *)

Ltac unfold_relay :=
  unfold relay, exchange, forward_to, from_cache, makedirs, read_file, client_sendall,
    client_close, resolve, connect, server_sendall, write_file, server_close,
    path_exists, contents, store, answer_queued, log, return_, raise,
    or_raise, mbind, M_bind, mret, M_ret, then_calls, lookup_calls, cache_hit
    in *.

Lemma relay_miss (py : runtime) (world : env) (method url host path : str)
    (headers : list str) (request : str) (st : state) :
  cache_hit py method url (cache st) = false ->
  relay py world method url host path headers request st
  = exchange py world method url host path headers request
      (then_calls ([Makedirs] ++ lookup_calls py method url) st).
Proof.
  intros Hmiss. rewrite relay_branches. unfold cache_hit in Hmiss.
  unfold makedirs, path_exists, log, mbind, M_bind, mret, M_ret, then_calls,
    lookup_calls.
  destruct (bool_decide (upper py method = lit "GET")); cbn in Hmiss |- *.
  - destruct (cache st !! sanitize_filename url); [done|].
    unfold emit. cbn. by rewrite <- app_assoc.
  - reflexivity.
Qed.

Lemma exchange_failure (py : runtime) (world : env)
    (method url host path : str) (headers : list str) (request : str)
    (st : state) :
  (gethostbyname world host = ResolverError
   \/ exists ip,
        gethostbyname world host = Resolved ip
        /\ exchange_fails world ip
             (outbound py method path host headers request)) ->
  exists e t s',
    exchange py world method url host path headers request st
    = (Raised e,
       {| cache := cache st; client_sock := client_sock st;
          server_sock := s'; trace := trace st ++ [GetHostByName host] ++ t |})
    /\ Forall upstream_call t.
Proof.
  intros [Hdns|(ip & Hdns & Hfail)]; unfold_relay; rewrite Hdns.
  { exists OSError, [], (server_sock st). split; [|constructor].
    reflexivity. }
  cbn [emit cache client_sock server_sock trace].
  destruct (accepts (origin world ip)) eqn:Hacc.
  2: { exists OSError, [Connect ip 80], (server_sock st).
       split; [|by repeat constructor].
       unfold emit; cbn; rewrite <- ?app_assoc; reflexivity. }
  destruct Hfail as [Hf|[Hf|(wire & Hwire & Hf)]]; [congruence| |].
  { rewrite Hf. exists UnicodeEncodeError, [Connect ip 80], (server_sock st).
    split; [|by repeat constructor].
       unfold emit; cbn; rewrite <- ?app_assoc; reflexivity. }
  rewrite Hwire. cbn [emit cache client_sock server_sock trace].
  destruct (takes (origin world ip) wire) eqn:Htakes.
  2: { exists OSError, [Connect ip 80; ServerSendall wire], (server_sock st).
       split; [|by repeat constructor].
       unfold emit; cbn; rewrite <- ?app_assoc; reflexivity. }
  destruct Hf as [Hf|Hdrain]; [congruence|].
  match goal with
  | |- context [recv_until_closed ?s] =>
    destruct (recv_until_closed_spec s) as (n & s' & Hloop); rewrite Hloop
  end.
  cbn [server_sock set_server emit cache client_sock trace]. rewrite Hdrain.
  exists OSError, ([Connect ip 80; ServerSendall wire] ++ repeat ServerRecv n), s'.
  split.
  - unfold emit; cbn; rewrite <- ?app_assoc; reflexivity.
  - apply Forall_app. split; [by repeat constructor|].
    apply Forall_forall. intros x Hx. apply list_elem_of_In in Hx.
    apply repeat_spec in Hx. by subst.
Qed.

(** X11.  On a miss, when the resolver fails otherwise than with
    [gaierror], or the origin refuses the connection, the request cannot
    be encoded, the send fails or the connection is reset while reading,
    the client gets the bytes [HTTP/1.1 500 Internal Server Error\r\n\r\n]:
    after the resolver only calls on the origin socket are made, that
    socket is never closed, and the cache directory is as it was. *)
Theorem forwarding_failure_gets_500 (py : runtime) (world : env)
    (fs : cache_dir) (client : sock)
    (request method target protocol host path : str) :
  arrives py client request method target protocol host path ->
  cache_hit py method (strip_slash target) fs = false ->
  (gethostbyname world host = ResolverError
   \/ exists ip,
        gethostbyname world host = Resolved ip
        /\ exchange_fails world ip
             (outbound py method (or_root path) host (tl (split_crlf request))
                request)) ->
  snd (session py world fs client) = fs
  /\ exists t,
       fst (session py world fs client)
       = [ClientRecv; Makedirs] ++ lookup_calls py method (strip_slash target)
         ++ [GetHostByName host] ++ t
         ++ [ClientSendall
               (blit "HTTP/1.1 500 Internal Server Error" ++ bcrlf ++ bcrlf);
             ClientClose]
       /\ Forall upstream_call t.
Proof.
  intros Harr Hmiss Hfail.
  rewrite (session_arrives _ _ _ _ _ _ _ _ _ _ Harr).
  rewrite relay_miss by exact Hmiss.
  destruct (exchange_failure py world method (strip_slash target) host
              (or_root path) (tl (split_crlf request)) request
              (then_calls ([Makedirs] ++ lookup_calls py method (strip_slash target))
                 (after_read fs client)) Hfail)
    as (e & t & s' & -> & Hall).
  split; [reflexivity|]. exists t. split; [|exact Hall].
  unfold outcome_of, conclude, emit, then_calls, after_read, accepted.
  cbn [fst snd trace cache client_sock server_sock set_client].
  cbn [app]. rewrite <- !app_assoc. reflexivity.
Qed.

(** X12.  A GET whose cache path exists but cannot be read as a file (it
    is a directory) gets the bytes
    [HTTP/1.1 500 Internal Server Error\r\n\r\n]; neither the resolver nor
    the origin is tried, and the cache directory is as it was. *)
Theorem unreadable_cache_entry_gets_500 (py : runtime) (world : env)
    (fs : cache_dir) (client : sock)
    (request method target protocol host path : str) :
  arrives py client request method target protocol host path ->
  upper py method = lit "GET" ->
  fs !! sanitize_filename (strip_slash target) = Some Directory ->
  session py world fs client
  = ([ClientRecv; Makedirs; PathExists (sanitize_filename (strip_slash target));
      OpenRead (sanitize_filename (strip_slash target));
      ClientSendall (blit "HTTP/1.1 500 Internal Server Error" ++ bcrlf ++ bcrlf);
      ClientClose], fs).
Proof.
  intros Harr Hget Hdir.
  rewrite (session_arrives _ _ _ _ _ _ _ _ _ _ Harr).
  unfold_relay. rewrite (bool_decide_eq_true_2 _ Hget).
  unfold after_read, accepted, emit, set_client.
  cbn [cache trace client_sock server_sock]. rewrite Hdir.
  cbn [cache trace client_sock server_sock]. rewrite Hdir. reflexivity.
Qed.

(** ** The cache directory over many sessions *)

Lemma from_cache_keeps_cache (url : str) : preserves eq (from_cache url).
Proof.
  unfold from_cache, read_file, client_sendall, client_close.
  walk (@preserves_bind eq (@eq_trans cache_dir)).
Qed.

Lemma relay_keeps_entries (py : runtime) (world : env)
    (method url host path : str) (headers : list str) (request : str)
    (st : state) (name : str) (v : node) :
  cache st !! name = Some v ->
  cache (snd (relay py world method url host path headers request st)) !! name
  = Some v.
Proof.
  intros Hv. destruct (decide (name = sanitize_filename url)) as [->|Hne].
  2: { by rewrite (relay_touches_key py world method url host path headers
                     request st name Hne). }
  destruct (decide (upper py method = lit "GET")) as [Hget|Hget].
  2: { by rewrite <- (relay_keeps_cache py world method url host path headers
                        request Hget st). }
  rewrite relay_branches.
  unfold makedirs, path_exists, log, mbind at 1 2, M_bind at 1 2.
  rewrite (bool_decide_eq_true_2 _ Hget). cbn [cache emit]. rewrite Hv.
  set (st1 := emit _ _).
  rewrite <- (from_cache_keeps_cache url st1). subst st1. exact Hv.
Qed.

Lemma session_keeps_entries (py : runtime) (world : env) (fs : cache_dir)
    (client : sock) (name : str) (v : node) :
  fs !! name = Some v -> snd (session py world fs client) !! name = Some v.
Proof.
  intros Hv.
  destruct (session_cases py world fs client)
    as [(request & method & target & protocol & host & path & Harr)
       | [-> _]]; [|exact Hv].
  rewrite (session_cache _ _ _ _ _ _ _ _ _ _ Harr).
  by apply relay_keeps_entries.
Qed.

(** X13.  No session removes or changes an entry of the cache directory:
    what is there before any number of sessions is there, with the same
    content, after them. *)
Theorem cache_only_grows (py : runtime) (sessions : list (env * sock))
    (fs : cache_dir) (name : str) (v : node) :
  fs !! name = Some v -> serve_all py sessions fs !! name = Some v.
Proof.
  unfold serve_all. revert fs.
  induction sessions as [|[world client] rest IH]; intros fs Hv; [exact Hv|].
  cbn [fold_left fst snd]. apply IH. by apply session_keeps_entries.
Qed.

(** X14.  Two targets with the same file name share a cache entry: after
    a GET of the one has been stored, a GET of the other is answered with
    those bytes, without the resolver or any origin. *)
Theorem colliding_targets_share_entry (py : runtime) (world world' : env)
    (fs : cache_dir) (client client' : sock)
    (request method target protocol host path : str)
    (request' method' target' protocol' host' path' : str)
    (ip : str) (wire response : bytes) :
  arrives py client request method target protocol host path ->
  arrives py client' request' method' target' protocol' host' path' ->
  upper py method = lit "GET" ->
  upper py method' = lit "GET" ->
  sanitize_filename (strip_slash target')
  = sanitize_filename (strip_slash target) ->
  fs !! sanitize_filename (strip_slash target) = None ->
  gethostbyname world host = Resolved ip ->
  accepts (origin world ip) = true ->
  encode (outbound py method (or_root path) host (tl (split_crlf request))
            request) = Some wire ->
  takes (origin world ip) wire = true ->
  drain (replies (origin world ip) wire) = Some response ->
  disk world (sanitize_filename (strip_slash target)) response = Written ->
  let key := sanitize_filename (strip_slash target) in
  session py world' (snd (session py world fs client)) client'
  = ([ClientRecv; Makedirs; PathExists key; OpenRead key;
      ClientSendall (replay response); ClientClose; ClientClose],
     <[key := File response]> fs).
Proof.
  intros Harr Harr' Hget Hget' Hkey Hnone Hdns Hacc Hwire Htakes Hdrain Hdisk key.
  destruct (session_stored py world fs client _ _ _ _ _ _ ip wire response
              Harr Hget Hnone Hdns Hacc Hwire Htakes Hdrain Hdisk)
    as (n & ->).
  cbn [snd].
  rewrite (session_hit py world' _ client' _ _ _ _ _ _ response Harr' Hget')
    by (rewrite Hkey; apply lookup_insert_eq).
  by rewrite Hkey.
Qed.

Lemma exchange_starts (py : runtime) (world : env)
    (method url host path : str) (headers : list str) (request : str)
    (st : state) :
  exists t,
    trace (snd (exchange py world method url host path headers request st))
    = trace st ++ GetHostByName host :: t.
Proof.
  assert (Hk : forall answer,
             emits (fun _ => True)
               (forward_to py world method url host path headers request
                  answer)).
  { intros answer.
    unfold forward_to, client_sendall, client_close, connect, server_sendall,
      write_file, server_close.
    walk (@emits_bind (fun _ : event => True)). }
  unfold exchange, resolve, log, mbind at 1 2, M_bind at 1 2, mret, M_ret.
  destruct (Hk (gethostbyname world host) (emit (GetHostByName host) st))
    as (t & Ht & _).
  exists t. rewrite Ht. cbn [emit trace]. by rewrite <- app_assoc.
Qed.

(** X15.  A request whose method is not GET touches no cache file, not
    even to look: after the read and [makedirs] the next call is the
    resolver's. *)
Theorem non_get_bypasses_cache (py : runtime) (world : env) (fs : cache_dir)
    (client : sock) (request method target protocol host path : str) :
  arrives py client request method target protocol host path ->
  upper py method <> lit "GET" ->
  (forall e, In e (fst (session py world fs client)) -> cache_file_of e = None)
  /\ exists t,
       fst (session py world fs client)
       = [ClientRecv; Makedirs; GetHostByName host] ++ t.
Proof.
  intros Harr Hget. split.
  - intros e Hin.
    destruct (session_calls py world fs client _ _ _ _ _ _ Harr)
      as (t & Ht & Hall).
    rewrite Ht in Hin. destruct Hin as [<-|Hin]; [done|].
    rewrite Forall_forall in Hall. apply list_elem_of_In in Hin.
    by destruct (Hall e Hin).
  - rewrite (session_arrives _ _ _ _ _ _ _ _ _ _ Harr).
    rewrite relay_miss
      by (unfold cache_hit; by rewrite (bool_decide_eq_false_2 _ Hget)).
    unfold lookup_calls. rewrite (bool_decide_eq_false_2 _ Hget).
    set (st := then_calls _ _).
    destruct (exchange_starts py world method (strip_slash target) host
                (or_root path) (tl (split_crlf request)) request st)
      as (t & Ht).
    unfold outcome_of, conclude. cbn [fst].
    destruct (exchange _ _ _ _ _ _ _ _ st) as [[[]| |e] st']; cbn [fst snd] in *;
      cbn [emit trace]; rewrite Ht; subst st; cbn; eexists; reflexivity.
Qed.

(** X16.  The resolver is only ever asked for the whole [netloc] of the
    target, a port in it included, and the origin is only ever connected
    to on port 80. *)
Theorem resolver_gets_netloc_and_port_is_80 (py : runtime) (world : env)
    (fs : cache_dir) (client : sock)
    (request method target protocol host path : str) :
  arrives py client request method target protocol host path ->
  forall e,
    In e (fst (session py world fs client)) ->
    (forall name, e = GetHostByName name -> name = host)
    /\ (forall ip port, e = Connect ip port -> port = 80).
Proof.
  intros Harr e Hin.
  destruct (session_calls py world fs client _ _ _ _ _ _ Harr)
    as (t & Ht & Hall).
  rewrite Ht in Hin. destruct Hin as [<-|Hin]; [done|].
  rewrite Forall_forall in Hall. apply list_elem_of_In in Hin.
  destruct (Hall e Hin); split; intros; by simplify_eq.
Qed.

Lemma drain_data (ds : list bytes) (rest : sock) :
  Forall (fun d => d <> []) ds ->
  drain (map Data ds ++ rest) = app (concat ds) <$> drain rest.
Proof.
  induction 1 as [|d ds Hd _ IH]; cbn [map app concat].
  - by destruct (drain rest).
  - destruct d as [|b d']; [done|]. cbn [drain]. rewrite IH.
    destruct (drain rest); cbn; [|done]. by rewrite app_assoc.
Qed.

(** X17.  The receive loop returns what the origin sent, chunk after chunk
    in order, when the origin then closes; a reset of the connection after
    any number of chunks makes the loop raise, and the chunks received are
    dropped. *)
Theorem recv_loop_concatenates (st : state) (ds : list bytes) :
  Forall (fun d => d <> []) ds ->
  (server_sock st = map Data ds ->
   fst (recv_until_closed st) = Value (concat ds))
  /\ (forall rest,
         server_sock st = map Data ds ++ ConnectionReset :: rest ->
         fst (recv_until_closed st) = Raised OSError).
Proof.
  intros Hds. destruct (recv_until_closed_spec st) as (n & s' & ->).
  cbn [fst]. split.
  - intros ->. rewrite <- (app_nil_r (map Data ds)), drain_data by done.
    cbn. by rewrite app_nil_r.
  - intros rest ->. by rewrite drain_data.
Qed.

(** X18.  What is sent from a cache file starts with [HTTP/]: the file as
    it is, or the file behind the fixed 200 header; a second wrapping
    changes nothing. *)
Theorem replay_has_status_line (response : bytes) :
  bstartswith (blit "HTTP/") (replay response) = true
  /\ (replay response = response \/ replay response = OK_WRAPPER ++ response)
  /\ replay (replay response) = replay response.
Proof.
  unfold replay. destruct (bstartswith (blit "HTTP/") response) eqn:E.
  - rewrite E. auto.
  - assert (H : bstartswith (blit "HTTP/") (OK_WRAPPER ++ response) = true)
      by reflexivity.
    rewrite H. auto.
Qed.

(** X19.  A stored answer is replayed to the next GET byte for byte
    exactly when it starts with [HTTP/]; otherwise the second client gets
    it behind the fixed 200 header, which the first client did not. *)
Theorem replayed_answer_identical_iff_status_line (py : runtime)
    (world world' : env) (fs : cache_dir) (client : sock)
    (request method target protocol host path : str)
    (ip : str) (wire response : bytes) :
  arrives py client request method target protocol host path ->
  upper py method = lit "GET" ->
  fs !! sanitize_filename (strip_slash target) = None ->
  gethostbyname world host = Resolved ip ->
  accepts (origin world ip) = true ->
  encode (outbound py method (or_root path) host (tl (split_crlf request))
            request) = Some wire ->
  takes (origin world ip) wire = true ->
  drain (replies (origin world ip) wire) = Some response ->
  disk world (sanitize_filename (strip_slash target)) response = Written ->
  let first := session py world fs client in
  let second := session py world' (snd first) client in
  to_client (fst first) = to_client (fst second)
  <-> bstartswith (blit "HTTP/") response = true.
Proof.
  intros Harr Hget Hnone Hdns Hacc Hwire Htakes Hdrain Hdisk.
  destruct (session_stored py world fs client _ _ _ _ _ _ ip wire response
              Harr Hget Hnone Hdns Hacc Hwire Htakes Hdrain Hdisk)
    as (n & Hfirst).
  cbn zeta. rewrite Hfirst. cbn [fst snd].
  rewrite (session_hit py world' _ client _ _ _ _ _ _ response Harr Hget)
    by apply lookup_insert_eq.
  cbn [fst]. rewrite !to_client_app, to_client_recv.
  unfold replay. destruct (bstartswith (blit "HTTP/") response) eqn:E; cbn.
  - done.
  - split; [|done]. intros H. exfalso.
    injection H as H. apply (f_equal (@length byte)) in H.
    rewrite ?length_app in H. cbn in H. lia.
Qed.

(** ** The accept loop *)

Lemma accept_loop_app (before after : list accept_result) :
  Forall keeps_looping before ->
  accept_loop (before ++ after)
  = (threads_for before ++ fst (accept_loop after), snd (accept_loop after)).
Proof.
  induction 1 as [|r before Hr _ IH]; cbn [app accept_loop threads_for omap].
  - by destruct (accept_loop after).
  - destruct r; try done; by rewrite IH.
Qed.

(** X20.  Started without an address argument, [main] prints the usage
    line and exits with status 2; no socket is bound. *)
Theorem main_without_address (argv : list str) (bound : bool)
    (results : list accept_result) :
  (length argv <= 1)%nat ->
  main argv bound results = ([PrintUsage], Exit 2).
Proof. destruct argv as [|prog [|ip rest]]; cbn; [done | done | lia]. Qed.

(** X21.  With an address, [main] binds port 8888 with a backlog of 5 and
    a one-second timeout, starts one thread per accepted connection in
    order, and skips timeouts.  Ctrl-C closes the listening socket and
    exits with status 0; another failure of [accept] is not caught and
    the listening socket is not closed. *)
Theorem main_serves_until_interrupted (prog ip : str) (more : list str)
    (before after : list accept_result) :
  Forall keeps_looping before ->
  main (prog :: ip :: more) true (before ++ Interrupted :: after)
  = ([Bind ip 8888; Listen 5; SetTimeout 1] ++ threads_for before
     ++ [CloseListener], Exit 0)
  /\ main (prog :: ip :: more) true (before ++ AcceptFailed :: after)
     = ([Bind ip 8888; Listen 5; SetTimeout 1] ++ threads_for before, Uncaught)
  /\ main (prog :: ip :: more) true before
     = ([Bind ip 8888; Listen 5; SetTimeout 1] ++ threads_for before, Looping).
Proof.
  intros Hb. unfold main. repeat split.
  - by rewrite accept_loop_app.
  - rewrite accept_loop_app by done. cbn. by rewrite app_nil_r.
  - rewrite <- (app_nil_r before) at 1. rewrite accept_loop_app by done.
    cbn. by rewrite app_nil_r.
Qed.

(** ** The statements above at the reference cases *)

Ltac arriving data :=
  exists data; repeat split; try (vm_compute; reflexivity); discriminate.

Lemma request_line_tokens_witness :
  word (lit "GET") /\ word (lit "http://example.test/a.html")
  /\ word (lit "HTTP/1.1")
  /\ List.filter (fun c => negb (isspace c))
       (hd [] (split_crlf Scenario.get_text))
     = lit "GET" ++ lit "http://example.test/a.html" ++ lit "HTTP/1.1".
Proof.
  apply (request_line_tokens cpython [Data Scenario.get_request]
           Scenario.get_text (lit "GET") (lit "http://example.test/a.html")
           (lit "HTTP/1.1") (lit "example.test") (lit "/a.html")).
  arriving Scenario.get_request.
Defined.

Lemma post_body_follows_first_blank_line_witness :
  Scenario.post_text
  = take 116 Scenario.post_text ++ crlf ++ crlf
    ++ post_body cpython (lit "POST") Scenario.post_text
  /\ forall j, (j < 116)%nat ->
       startswith (crlf ++ crlf) (drop j Scenario.post_text) = false.
Proof.
  apply (post_body_follows_first_blank_line cpython (lit "POST")
           Scenario.post_text 116); vm_compute; reflexivity.
Defined.

Lemma recv_loop_concatenates_witness :
  let st := {| cache := ∅; client_sock := [];
               server_sock := [Data (blit "HTTP/1.0 200 OK"); Data bcrlf];
               trace := [] |} in
  fst (recv_until_closed st) = Value (blit "HTTP/1.0 200 OK" ++ bcrlf ++ []).
Proof.
  intros st.
  apply (proj1 (recv_loop_concatenates st [blit "HTTP/1.0 200 OK"; bcrlf]
                  ltac:(repeat constructor; discriminate))).
  reflexivity.
Defined.

Lemma early_failure_gets_500_witness :
  session cpython Scenario.healthy ∅ [Data [Byte.xff]]
  = ([ClientRecv;
      ClientSendall (blit "HTTP/1.1 500 Internal Server Error" ++ bcrlf ++ bcrlf);
      ClientClose], ∅).
Proof.
  apply early_failure_gets_500. right; left. exists [Byte.xff].
  split; vm_compute; reflexivity.
Defined.

Lemma forwarding_failure_gets_500_witness :
  let client := [Data Scenario.get_request] in
  let target := lit "http://example.test/a.html" in
  snd (session cpython Cases.refusing ∅ client) = ∅
  /\ exists t,
       fst (session cpython Cases.refusing ∅ client)
       = [ClientRecv; Makedirs]
         ++ lookup_calls cpython (lit "GET") (strip_slash target)
         ++ [GetHostByName (lit "example.test")] ++ t
         ++ [ClientSendall
               (blit "HTTP/1.1 500 Internal Server Error" ++ bcrlf ++ bcrlf);
             ClientClose]
       /\ Forall upstream_call t.
Proof.
  intros client target.
  apply (forwarding_failure_gets_500 cpython Cases.refusing ∅ client
           Scenario.get_text (lit "GET") target (lit "HTTP/1.1")
           (lit "example.test") (lit "/a.html")).
  - arriving Scenario.get_request.
  - vm_compute; reflexivity.
  - right. exists Scenario.address. split; [reflexivity|]. left. reflexivity.
Defined.

Lemma unreadable_cache_entry_gets_500_witness :
  let fs : cache_dir := {[ ([] : str) := Directory ]} in
  let key := sanitize_filename (strip_slash (lit "/")) in
  session cpython Scenario.healthy fs [Data Cases.root_request]
  = ([ClientRecv; Makedirs; PathExists key; OpenRead key;
      ClientSendall (blit "HTTP/1.1 500 Internal Server Error" ++ bcrlf ++ bcrlf);
      ClientClose], fs).
Proof.
  intros fs key.
  apply (unreadable_cache_entry_gets_500 cpython Scenario.healthy fs
           [Data Cases.root_request] Cases.root_text (lit "GET") (lit "/")
           (lit "HTTP/1.1") [] []).
  - arriving Cases.root_request.
  - vm_compute; reflexivity.
  - vm_compute; reflexivity.
Defined.

Lemma cache_only_grows_witness :
  let fs : cache_dir := {[ lit "kept" := File (blit "x") ]} in
  serve_all cpython [(Scenario.healthy, [Data Scenario.get_request])] fs
    !! lit "kept"
  = Some (File (blit "x")).
Proof.
  intros fs. apply cache_only_grows. vm_compute; reflexivity.
Defined.

Lemma colliding_targets_share_entry_witness :
  let key := sanitize_filename (strip_slash (lit "http://example.test/a.html")) in
  session cpython Scenario.dead
    (snd (session cpython Scenario.healthy ∅ [Data Scenario.get_request]))
    [Data Cases.twin_request]
  = ([ClientRecv; Makedirs; PathExists key; OpenRead key;
      ClientSendall (replay Scenario.reply); ClientClose; ClientClose],
     <[key := File Scenario.reply]> ∅).
Proof.
  intros key.
  apply (colliding_targets_share_entry cpython Scenario.healthy Scenario.dead
           ∅ [Data Scenario.get_request] [Data Cases.twin_request]
           Scenario.get_text (lit "GET") (lit "http://example.test/a.html")
           (lit "HTTP/1.1") (lit "example.test") (lit "/a.html")
           Cases.twin_text (lit "GET") (lit "http___example.test_a.html")
           (lit "HTTP/1.1") (lit "http___example.test_a.html") []
           Scenario.address Scenario.get_wire Scenario.reply);
    try (vm_compute; reflexivity).
  - arriving Scenario.get_request.
  - arriving Cases.twin_request.
Defined.

Lemma non_get_bypasses_cache_witness :
  let t := fst (session cpython Scenario.healthy ∅
                  [Data Scenario.post_request]) in
  (forall e, In e t -> cache_file_of e = None)
  /\ exists u,
       t = [ClientRecv; Makedirs; GetHostByName (lit "example.test")] ++ u.
Proof.
  intros t.
  apply (non_get_bypasses_cache cpython Scenario.healthy ∅
           [Data Scenario.post_request] Scenario.post_text (lit "POST")
           (lit "http://example.test/form") (lit "HTTP/1.1")
           (lit "example.test") (lit "/form")).
  - arriving Scenario.post_request.
  - vm_compute. discriminate.
Defined.

Lemma resolver_gets_netloc_and_port_is_80_witness :
  let t := fst (session cpython Cases.anywhere ∅ [Data Cases.port_request]) in
  In (GetHostByName (lit "example.test:8080")) t
  /\ In (Connect Scenario.address 80) t
  /\ forall e,
       In e t ->
       (forall name, e = GetHostByName name -> name = lit "example.test:8080")
       /\ (forall ip port, e = Connect ip port -> port = 80).
Proof.
  intros t. split; [|split].
  - vm_compute. tauto.
  - vm_compute. tauto.
  - apply (resolver_gets_netloc_and_port_is_80 cpython Cases.anywhere ∅
             [Data Cases.port_request] Cases.port_text (lit "GET")
             (lit "http://example.test:8080/x") (lit "HTTP/1.1")
             (lit "example.test:8080") (lit "/x")).
    arriving Cases.port_request.
Defined.

Lemma replayed_answer_identical_iff_status_line_witness :
  let first := session cpython Scenario.healthy ∅ [Data Scenario.get_request] in
  let second :=
    session cpython Scenario.dead (snd first) [Data Scenario.get_request] in
  to_client (fst first) = to_client (fst second)
  <-> bstartswith (blit "HTTP/") Scenario.reply = true.
Proof.
  apply (replayed_answer_identical_iff_status_line cpython Scenario.healthy
           Scenario.dead ∅ [Data Scenario.get_request]
           Scenario.get_text (lit "GET") (lit "http://example.test/a.html")
           (lit "HTTP/1.1") (lit "example.test") (lit "/a.html")
           Scenario.address Scenario.get_wire Scenario.reply);
    try (vm_compute; reflexivity).
  arriving Scenario.get_request.
Defined.

Lemma main_without_address_witness :
  main [lit "ProxyServer.py"] true [TimedOut; Interrupted]
  = ([PrintUsage], Exit 2).
Proof. apply main_without_address. cbn. lia. Defined.

Lemma main_serves_until_interrupted_witness :
  let argv := [lit "ProxyServer.py"; lit "127.0.0.1"] in
  let before := [TimedOut; Accepted [] (lit "198.51.100.1"); TimedOut] in
  let started := [StartThread [] (lit "198.51.100.1")] in
  let setup := [Bind (lit "127.0.0.1") 8888; Listen 5; SetTimeout 1] in
  main argv true (before ++ [Interrupted])
  = (setup ++ started ++ [CloseListener], Exit 0)
  /\ main argv true (before ++ [AcceptFailed]) = (setup ++ started, Uncaught)
  /\ main argv true before = (setup ++ started, Looping).
Proof.
  intros argv before started setup.
  apply (main_serves_until_interrupted (lit "ProxyServer.py")
           (lit "127.0.0.1") [] before []).
  repeat constructor.
Defined.

Lemma own_headers_follow_blank_line_witness :
  exists head,
    outbound cpython (lit "GET") (lit "/a.html") (lit "example.test")
      (tl (split_crlf Scenario.get_text)) Scenario.get_text
    = head ++ (lit "Host: " ++ lit "example.test" ++ crlf)
      ++ (lit "Connection: close" ++ crlf)
      ++ (lit "User-Agent: PythonProxy/1.0" ++ crlf)
      ++ crlf ++ post_body cpython (lit "GET") Scenario.get_text
    /\ contains (crlf ++ crlf) head = true.
Proof.
  apply own_headers_follow_blank_line; vm_compute; reflexivity.
Defined.

Lemma empty_read_closes_silently_witness :
  session cpython Scenario.healthy ∅ []
  = ([ClientRecv; ClientClose; ClientClose], ∅).
Proof. apply empty_read_closes_silently. vm_compute; reflexivity. Defined.
